(** * langgraph-prac: the human-in-the-loop notebook and the chatbot loop

    A shallow embedding of [hitl.ipynb] (the two tools [get_stock_price]
    and [buy_stocks], the [chatbot]/[tools] graph) and of the chat loop of
    [chatbot.ipynb], together with the resumable, checkpointed run
    controller that the notebooks borrow from the orchestration library. *)

From Stdlib Require Import ZArith String Ascii List Lia Bool.
From Stdlib Require Import Floats.SpecFloat.
From stdpp Require Import base option list strings pretty gmap fin_maps.

Local Open Scope Z_scope.

(** ** Python values used by the notebooks *)

(** Python's [float] is IEEE-754 binary64.  The notebooks never do float
    arithmetic: they write float literals and render floats to text.  Both
    are modelled on the inductive [spec_float] of the Standard Library. *)
Module PyFloat.

Definition prec : Z := 53.
Definition emax : Z := 1024.

(** The float nearest (ties to even) to the positive rational [n / d]. *)
Definition of_ratio (s : bool) (n d : Z) : spec_float :=
  match n with
  | Z0 => S754_zero s
  | _ =>
    let '(mz, ez, lz) := SFdiv_core_binary prec emax n 0 d 0 in
    binary_round_aux prec emax s mz ez lz
  end.

(** The value [digits * 10^exp10], correctly rounded: what the decimal
    text of a float denotes when Python reads it. *)
Definition of_decimal (s : bool) (digits : Z) (exp10 : Z) : spec_float :=
  if 0 <=? exp10 then of_ratio s (digits * 10 ^ exp10) 1
  else of_ratio s digits (10 ^ (- exp10)).

(** A literal [i.f] with [frac] digits after the point, such as [200.3]
    (digits 2003, one fractional digit). *)
Definition literal (digits : Z) (frac : nat) : spec_float :=
  of_decimal false digits (- Z.of_nat frac).

(** [float(n)] for an [int] that fits. *)
Definition of_int (n : Z) : spec_float :=
  match n with
  | Z0 => S754_zero false
  | Zpos _ => of_ratio false n 1
  | Zneg _ => of_ratio true (- n) 1
  end.

Definition sign_str (s : bool) : string := if s then "-" else "".

Fixpoint zeros (n : nat) : string :=
  match n with
  | O => ""
  | S k => String "0" (zeros k)
  end.

(** Left-pad with zeros to width [w]. *)
Definition pad_left (w : nat) (s : string) : string :=
  zeros (w - String.length s) +:+ s.

(** Nearest integer, ties to even, of [n / d] for [0 <= n], [0 < d]. *)
Definition div_half_even (n d : Z) : Z :=
  let q := n / d in
  let r := n mod d in
  match 2 * r ?= d with
  | Lt => q
  | Gt => q + 1
  | Eq => if Z.even q then q else q + 1
  end.

(** [m * 2^e * 10^p], rounded to the nearest integer, ties to even. *)
Definition scaled_round (m : positive) (e : Z) (p : nat) : Z :=
  let n := Zpos m * 10 ^ Z.of_nat p in
  if 0 <=? e then n * 2 ^ e else div_half_even n (2 ^ (- e)).

(** [format(x, '.pf')]: fixed notation with [p] digits after the point,
    correctly rounded from the exact binary value. *)
Definition format_f (p : nat) (x : spec_float) : string :=
  let point := match p with O => "" | _ => "." end in
  match x with
  | S754_nan => "nan"
  | S754_infinity s => sign_str s +:+ "inf"
  | S754_zero s => sign_str s +:+ "0" +:+ point +:+ zeros p
  | S754_finite s m e =>
    let q := scaled_round m e p in
    let scale := 10 ^ Z.of_nat p in
    sign_str s +:+ pretty (q / scale) +:+ point +:+
    match p with
    | O => ""
    | _ => pad_left p (pretty (q mod scale))
    end
  end.

(** *** [repr(x)]: the shortest decimal text that reads back as [x] *)

(** Drop trailing zeros of a digit string, counting them. *)
Fixpoint strip_zeros_rev (s : list ascii) : list ascii :=
  match s with
  | "0"%char :: t => strip_zeros_rev t
  | _ => s
  end.

Definition strip_trailing_zeros (s : string) : string :=
  string_of_list_ascii
    (rev (strip_zeros_rev (rev (list_ascii_of_string s)))).

(** [floor (m * 2^e / 10^k)]. *)
Definition floor_scaled (m : positive) (e k : Z) : Z :=
  let num := Zpos m * (if 0 <=? e then 2 ^ e else 1)
                    * (if 0 <=? k then 1 else 10 ^ (- k)) in
  let den := (if 0 <=? e then 1 else 2 ^ (- e))
             * (if 0 <=? k then 10 ^ k else 1) in
  num / den.

(** Sign of [c * 10^k - m * 2^e] after clearing denominators. *)
Definition cmp_decimal (c k : Z) (m : positive) (e : Z) : comparison :=
  let lhs := c * (if 0 <=? k then 10 ^ k else 1)
               * (if 0 <=? e then 1 else 2 ^ (- e)) in
  let rhs := Zpos m * (if 0 <=? e then 2 ^ e else 1)
                    * (if 0 <=? k then 1 else 10 ^ (- k)) in
  lhs ?= rhs.

(** The exponent [E] with [10^E <= m * 2^e < 10^(E+1)], searched upward
    from a lower estimate. *)
Fixpoint find_exp10 (fuel : nat) (m : positive) (e E : Z) : Z :=
  match fuel with
  | O => E
  | S f =>
    match cmp_decimal 1 (E + 1) m e with
    | Gt => E
    | _ => find_exp10 f m e (E + 1)
    end
  end.

Definition exp10 (m : positive) (e : Z) : Z :=
  let bits := Z.log2 (Zpos m) + e in
  find_exp10 8 m e ((bits * 30102) / 100000 - 2).

(** Does the [n]-digit decimal [c * 10^k] read back as the float? *)
Definition reads_back (s : bool) (m : positive) (e c k : Z) : bool :=
  match of_decimal s c k with
  | S754_finite s' m' e' => Bool.eqb s s' && Pos.eqb m m' && Z.eqb e e'
  | _ => false
  end.

(** Distance of [c * 10^k] from [m * 2^e], twice, in units of [10^k]
    times the binary denominator: only used to compare two candidates. *)
Definition closer_low (m : positive) (e lo k : Z) : bool :=
  (* is [lo] at least as close as [lo + 1]?  i.e. 2x <= 2 lo + 1, with
     ties resolved towards an even last digit *)
  match cmp_decimal (2 * lo + 1) k (2 * m)%positive e with
  | Gt => true
  | Lt => false
  | Eq => Z.even lo
  end.

(** The candidate with [n] significant digits, if one reads back. *)
Definition candidate (s : bool) (m : positive) (e E : Z) (n : nat)
  : option (Z * Z) :=
  let k := E - (Z.of_nat n - 1) in
  let lo := floor_scaled m e k in
  let hi := lo + 1 in
  match reads_back s m e lo k, reads_back s m e hi k with
  | true, true => Some (if closer_low m e lo k then lo else hi, k)
  | true, false => Some (lo, k)
  | false, true => Some (hi, k)
  | false, false => None
  end.

(** Try [n], [n+1], ... significant digits; seventeen always suffice. *)
Fixpoint shortest (fuel : nat) (s : bool) (m : positive) (e E : Z) (n : nat)
  : Z * Z :=
  match fuel with
  | O => (floor_scaled m e (E - 16), E - 16)
  | S f =>
    match candidate s m e E n with
    | Some ck => ck
    | None => shortest f s m e E (S n)
    end
  end.

(** Digits (without trailing zeros) and the position of the decimal
    point relative to their start: the value is [0.digits * 10^decpt]. *)
Definition digits_decpt (s : bool) (m : positive) (e : Z) : string * Z :=
  let '(c, k) := shortest 17 s m e (exp10 m e) 1 in
  let full := pretty c in
  (strip_trailing_zeros full, k + Z.of_nat (String.length full)).

(** The exponent part of scientific notation: sign, at least two digits. *)
Definition exp_str (x : Z) : string :=
  (if x <? 0 then "-" else "+") +:+ pad_left 2 (pretty (Z.abs x)).

Definition take_str (n : nat) (s : string) : string := substring 0 n s.
Definition drop_str (n : nat) (s : string) : string :=
  substring n (String.length s - n) s.

(** [repr(x)] (also [str(x)] and the f-string field [{x}]). *)
Definition repr (x : spec_float) : string :=
  match x with
  | S754_nan => "nan"
  | S754_infinity s => sign_str s +:+ "inf"
  | S754_zero s => sign_str s +:+ "0.0"
  | S754_finite s m e =>
    let '(ds, decpt) := digits_decpt s m e in
    let len := Z.of_nat (String.length ds) in
    sign_str s +:+
    if (decpt <=? -4) || (16 <? decpt) then
      take_str 1 ds +:+
      (if 1 <? len then "." +:+ drop_str 1 ds else "") +:+
      "e" +:+ exp_str (decpt - 1)
    else if decpt <=? 0 then
      "0." +:+ zeros (Z.to_nat (- decpt)) +:+ ds
    else if len <=? decpt then
      ds +:+ zeros (Z.to_nat (decpt - len)) +:+ ".0"
    else
      take_str (Z.to_nat decpt) ds +:+ "." +:+ drop_str (Z.to_nat decpt) ds
  end.

End PyFloat.

(** [str(n)] for a Python [int]. *)
Definition int_str (n : Z) : string := pretty n.

(** ** Messages *)

(** A JSON argument of a tool call. *)
Inductive value :=
| VStr (s : string)
| VInt (n : Z)
| VFloat (x : spec_float).

Record tool_call := ToolCall {
  tc_name : string;
  tc_args : gmap string value;
  tc_id : string
}.

(** The kinds of records that appear in [State.messages]: the user's
    [{"role": "user", "content": ...}], the model's reply (which may ask
    for tool calls), the result of a tool, and the tool message with
    status "error" that the tools node writes for a tool call that
    failed. *)
Inductive message :=
| HumanMessage (content : string)
| AIMessage (content : string) (tool_calls : list tool_call)
| ToolMessage (content : string) (name : string) (tool_call_id : string)
| ToolErrorMessage (content : string) (name : string) (tool_call_id : string).

Definition content (m : message) : string :=
  match m with
  | HumanMessage c => c
  | AIMessage c _ => c
  | ToolMessage c _ _ => c
  | ToolErrorMessage c _ _ => c
  end.

(** ** Errors of the run controller *)

Inductive error :=
| NotFound
| Busy
| NoPendingInterrupt
| UpstreamFailure
| StepLimitExceeded.

(** ** Steps that may ask for an external decision *)

(** A step either finishes with a result, calls [interrupt(payload)] and
    goes on with the value it is given back, or fails.  [buy_stocks] is
    written in this style in the notebook:
    [decision = interrupt(...)] followed by a branch on [decision]. *)
Inductive Step (A : Type) : Type :=
| Done (a : A)
| Interrupt (payload : string) (k : string → Step A)
| Raise (e : error).
Arguments Done {A} a.
Arguments Interrupt {A} payload k.
Arguments Raise {A} e.

Definition interrupt (payload : string) : Step string :=
  Interrupt payload Done.

Fixpoint step_bind {A B} (f : A → Step B) (p : Step A) : Step B :=
  match p with
  | Done a => f a
  | Interrupt payload k => Interrupt payload (λ d, step_bind f (k d))
  | Raise e => Raise e
  end.

#[global] Instance step_ret : MRet Step := λ A a, Done a.
#[global] Instance step_mbind : MBind Step := λ A B f p, step_bind f p.

(** What one execution of a step gives the controller. *)
Inductive StepResult (A : Type) : Type :=
| Delta (d : A)
| Interrupted (payload : string)
| StepFailed (e : error).
Arguments Delta {A} d.
Arguments Interrupted {A} payload.
Arguments StepFailed {A} e.

(** [try: ... except Exception: ...] around a step: a failure is handled,
    an [interrupt] call passes through. *)
Fixpoint step_catch {A} (p : Step A) (handler : error → Step A) : Step A :=
  match p with
  | Done a => Done a
  | Interrupt payload k => Interrupt payload (λ d, step_catch (k d) handler)
  | Raise e => handler e
  end.

(** Modelled from the spec: the Step Executor [run(step, state)], which the
    notebooks borrow from the orchestration library.  An execution starts
    the step from its beginning and hands the decisions it is given, in
    order, to the [interrupt] calls of the step; it stops at the first
    [interrupt] call for which no decision is left and reports its
    payload.  A first execution has no decision.  The re-execution of a
    resume has the decisions the step was given before, followed by the
    new one, so that the new one satisfies the pending [interrupt] call
    and the step runs past the point that suspended it. *)
Fixpoint replay {A} (p : Step A) (decisions : list string) : StepResult A :=
  match p with
  | Done a => Delta a
  | Interrupt payload k =>
    match decisions with
    | [] => Interrupted payload
    | d :: rest => replay (k d) rest
    end
  | Raise e => StepFailed e
  end.

(** The first execution of a step ([None]), and its re-execution with the
    decision for its first [interrupt] call ([Some decision]). *)
Definition execute {A} (p : Step A) (resume : option string) : StepResult A :=
  replay p (match resume with
            | None => []
            | Some decision => [decision]
            end).

(** An execution in which the step is not suspended as long as decisions
    are left: every [interrupt] call is answered on the spot.  The second
    component is what is left of the decisions. *)
Fixpoint replay_rest {A} (p : Step A) (decisions : list string)
  : StepResult A * list string :=
  match p with
  | Done a => (Delta a, decisions)
  | Interrupt payload k =>
    match decisions with
    | [] => (Interrupted payload, [])
    | d :: rest => replay_rest (k d) rest
    end
  | Raise e => (StepFailed e, decisions)
  end.

(** ** hitl.ipynb: the tools *)

Module Hitl.

(** The dict literal of [get_stock_price], built in the order written. *)
Definition prices : gmap string spec_float :=
  <["RIL" := PyFloat.literal 876 1]>
    (<["AMZN" := PyFloat.literal 1500 1]>
      (<["AAPL" := PyFloat.literal 1004 1]>
        (<["MSFT" := PyFloat.literal 2003 1]> ∅))).

(** [{...}.get(symbol, 0.0)] *)
Definition get_stock_price (symbol : string) : spec_float :=
  default (PyFloat.literal 0 1) (prices !! symbol).

Definition approve_prompt (symbol : string) (quantity : Z)
    (total_price : spec_float) : string :=
  "Approve buying " +:+ int_str quantity +:+ " " +:+ symbol +:+
  " stocks for $" +:+ PyFloat.format_f 2 total_price +:+ "?".

Definition bought_text (symbol : string) (quantity : Z)
    (total_price : spec_float) : string :=
  "You bought " +:+ int_str quantity +:+ " shares of " +:+ symbol +:+
  " for a total price of " +:+ PyFloat.repr total_price.

Definition buy_stocks (symbol : string) (quantity : Z)
    (total_price : spec_float) : Step string :=
  decision ← interrupt (approve_prompt symbol quantity total_price);
  if String.eqb decision "yes"
  then mret (bought_text symbol quantity total_price)
  else mret "Buying declined.".

(** *** The tool registry [tools = [get_stock_price, buy_stocks]] *)

Definition arg_str (args : gmap string value) (k : string) : option string :=
  match args !! k with
  | Some (VStr s) => Some s
  | _ => None
  end.

(** The lax conversions of the argument schema that the [@tool]
    decorator derives from the signature: a string that spells a number
    is read as that number, and a float without fractional part is an
    integer. *)
Definition digit_of (c : ascii) : option Z :=
  let n := Z.of_nat (nat_of_ascii c) in
  if (48 <=? n) && (n <=? 57) then Some (n - 48) else None.

(** The digits at the start of [s], as a number, with their count and the
    rest of [s]. *)
Fixpoint read_digits (s : string) (acc : Z) (count : nat)
  : Z * nat * string :=
  match s with
  | EmptyString => (acc, count, EmptyString)
  | String c t =>
    match digit_of c with
    | Some d => read_digits t (10 * acc + d) (S count)
    | None => (acc, count, s)
    end
  end.

(** An optional sign: is it a minus, and the rest. *)
Definition read_sign (s : string) : bool * string :=
  match s with
  | String "-" t => (true, t)
  | String "+" t => (false, t)
  | _ => (false, s)
  end.

(** ['10'], ['-3'], ['+7']: a sign and decimal digits, nothing else. *)
Definition int_of_str (s : string) : option Z :=
  let '(neg, t) := read_sign s in
  match read_digits t 0 0 with
  | (n, S _, EmptyString) => Some (if neg then - n else n)
  | _ => None
  end.

(** The exponent part, [e] or [E], a sign and digits; none gives 0. *)
Definition read_exponent (s : string) : option Z :=
  match s with
  | EmptyString => Some 0
  | String c t =>
    if Ascii.eqb c "e" || Ascii.eqb c "E" then
      let '(neg, u) := read_sign t in
      match read_digits u 0 0 with
      | (n, S _, EmptyString) => Some (if neg then - n else n)
      | _ => None
      end
    else None
  end.

(** ['2003.0'], ['-1.5'], ['10'], ['2e3']: a sign, digits, an optional
    fraction and an optional exponent, read as the nearest float. *)
Definition float_of_str (s : string) : option spec_float :=
  let '(neg, t) := read_sign s in
  match read_digits t 0 0 with
  | (_, O, _) => None
  | (whole, S _, rest) =>
    let '(digits, frac, rest') :=
      match rest with
      | String "." u => read_digits u whole 0
      | _ => (whole, O, rest)
      end in
    match read_exponent rest' with
    | Some e => Some (PyFloat.of_decimal neg digits (e - Z.of_nat frac))
    | None => None
    end
  end.

(** [10.0] is the integer 10; [10.5], an infinity or a NaN is none. *)
Definition int_of_float (x : spec_float) : option Z :=
  match x with
  | S754_zero _ => Some 0
  | S754_finite s m e =>
    let sign := if s then -1 else 1 in
    if 0 <=? e then Some (sign * (Zpos m * 2 ^ e))
    else if Zpos m mod 2 ^ (- e) =? 0 then Some (sign * (Zpos m / 2 ^ (- e)))
    else None
  | _ => None
  end.

(** An [int] parameter: a JSON integer, an integral float or a string
    that spells an integer. *)
Definition arg_int (args : gmap string value) (k : string) : option Z :=
  match args !! k with
  | Some (VInt n) => Some n
  | Some (VFloat x) => int_of_float x
  | Some (VStr s) => int_of_str s
  | None => None
  end.

(** A [float] parameter: a JSON float, a JSON integer or a string that
    spells a number. *)
Definition arg_float (args : gmap string value) (k : string)
  : option spec_float :=
  match args !! k with
  | Some (VFloat x) => Some x
  | Some (VInt n) => Some (PyFloat.of_int n)
  | Some (VStr s) => float_of_str s
  | None => None
  end.

(** Calling a tool by name with the arguments of a tool call.  The
    result becomes the text of the tool message: a [str] as it is, the
    [float] of [get_stock_price] in its [repr].  A call to an unknown
    tool, or one whose arguments do not fit the signature, raises; the
    tools node below catches it. *)
Definition invoke_tool (c : tool_call) : Step string :=
  if String.eqb (tc_name c) "get_stock_price" then
    match arg_str (tc_args c) "symbol" with
    | Some symbol => mret (PyFloat.repr (get_stock_price symbol))
    | None => Raise UpstreamFailure
    end
  else if String.eqb (tc_name c) "buy_stocks" then
    match arg_str (tc_args c) "symbol",
          arg_int (tc_args c) "quantity",
          arg_float (tc_args c) "total_price" with
    | Some symbol, Some quantity, Some total_price =>
      buy_stocks symbol quantity total_price
    | _, _, _ => Raise UpstreamFailure
    end
  else Raise UpstreamFailure.

(** The text of the error message for a call of one of [tools] that
    raised (here: arguments that do not fit the signature).  It is worded
    by the libraries from the exception, not by the notebook, and is left
    unspecified: the definition is opaque, and what is proved below holds
    whatever this text is. *)
Definition raised_error_text (c : tool_call) : string.
Proof. exact ("Error: " +:+ tc_name c). Qed.

(** The text of the error message that the tools node writes for a tool
    call that failed: the tool raised, or the name is not one of
    [tools]. *)
Definition tool_error_text (c : tool_call) : string :=
  if String.eqb (tc_name c) "get_stock_price"
     || String.eqb (tc_name c) "buy_stocks"
  then raised_error_text c
  else "Error: " +:+ tc_name c +:+
       " is not a valid tool, try one of [get_stock_price, buy_stocks].".

(** One tool call in the tools node: the result of the tool in a tool
    message, or an error message when the call fails; the [interrupt] of
    [buy_stocks] is not caught. *)
Definition run_one (c : tool_call) : Step message :=
  step_catch
    (r ← invoke_tool c; mret (ToolMessage r (tc_name c) (tc_id c)))
    (λ _, mret (ToolErrorMessage (tool_error_text c) (tc_name c) (tc_id c))).

(** [ToolNode(tools)]: one tool message per tool call of the last
    assistant message, in order. *)
Fixpoint run_tool_calls (calls : list tool_call) : Step (list message) :=
  match calls with
  | [] => mret []
  | c :: cs =>
    m ← run_one c;
    rest ← run_tool_calls cs;
    mret (m :: rest)
  end.

Definition tool_node (st : list message) : Step (list message) :=
  match last st with
  | Some (AIMessage _ calls) => run_tool_calls calls
  | _ => Raise UpstreamFailure
  end.

(** The two nodes added to the graph builder. *)
Inductive node := chatbot | tools.

(** [tools_condition]: go to the tools node when the last message asks
    for tool calls, else end. *)
Definition tools_condition (st : list message) : option node :=
  match last st with
  | Some (AIMessage _ (_ :: _)) => Some tools
  | _ => None
  end.

Section Graph.
(** [llm_with_tools.invoke]: the model, a black box that maps the
    history to the next assistant message, or fails. *)
Variable llm_with_tools : list message → option message.

Definition chatbot_node (st : list message) : Step (list message) :=
  match llm_with_tools st with
  | Some msg => mret [msg]
  | None => Raise UpstreamFailure
  end.

(** [add_node("chatbot", chatbot_node)], [add_node("tools", ...)] *)
Definition run_node (n : node) (st : list message) : Step (list message) :=
  match n with
  | chatbot => chatbot_node st
  | tools => tool_node st
  end.

(** [add_edge(START, "chatbot")],
    [add_conditional_edges("chatbot", tools_condition)],
    [add_edge("tools", "chatbot")], [add_edge("chatbot", END)] *)
Definition entry_node : node := chatbot.

Definition next_node (n : node) (st : list message) : option node :=
  match n with
  | chatbot => tools_condition st
  | tools => Some chatbot
  end.
End Graph.

End Hitl.

(** ** The run controller and its checkpoint store *)

Inductive Status := RUNNING | INTERRUPTED | COMPLETED | FAILED.

(** What [invoke] and [resume] hand back to the caller. *)
Inductive Outcome :=
| Completed (final : list message)
| Suspended (payload : string)
| Error (e : error).

Record ResumeCommand := { decision : string }.

Module Controller.
Section Engine.
Context {step_id : Type}.

(** Modelled from the spec: the Checkpoint record of the data model
    (the checkpointer [MemorySaver] is the library's): the state
    snapshot, the session status, the step to resume at, the payload
    shown to the external decider and the last error; and, for a step
    that was suspended again while it was re-executed, the decisions it
    was given before, which the next re-execution hands back to it so
    that the new decision reaches the pending [interrupt] call. *)
Record Checkpoint := {
  state : list message;
  status : Status;
  pending_step_id : option step_id;
  interrupt_payload : option string;
  last_error : option error;
  resume_values : list string
}.

(** Modelled from the spec: the Checkpoint Store, an in-memory map
    keyed by thread id; [load] gives the latest checkpoint of a thread
    or nothing ([NotFound]), [save] replaces it. *)
Definition load (tid : string) (σ : gmap string Checkpoint)
  : option Checkpoint := σ !! tid.

Definition save (tid : string) (cp : Checkpoint)
    (σ : gmap string Checkpoint) : gmap string Checkpoint :=
  <[tid := cp]> σ.

Definition cp_running (st : list message) (sid : step_id) : Checkpoint :=
  {| state := st; status := RUNNING; pending_step_id := Some sid;
     interrupt_payload := None; last_error := None; resume_values := [] |}.

(** A step suspended at an [interrupt] call, after the decisions
    [answered] that an earlier resume gave to its earlier calls. *)
Definition cp_suspended (st : list message) (sid : step_id)
    (payload : string) (answered : list string) : Checkpoint :=
  {| state := st; status := INTERRUPTED; pending_step_id := Some sid;
     interrupt_payload := Some payload; last_error := None;
     resume_values := answered |}.

(** A step suspended at its first [interrupt] call. *)
Definition cp_interrupted (st : list message) (sid : step_id)
    (payload : string) : Checkpoint :=
  cp_suspended st sid payload [].

Definition cp_completed (st : list message) : Checkpoint :=
  {| state := st; status := COMPLETED; pending_step_id := None;
     interrupt_payload := None; last_error := None; resume_values := [] |}.

Definition cp_failed (st : list message) (sid : step_id) (e : error)
  : Checkpoint :=
  {| state := st; status := FAILED; pending_step_id := Some sid;
     interrupt_payload := None; last_error := Some e; resume_values := [] |}.

(** The graph the caller declares: where to start, what each step
    does, and the routing function ([None] is the end). *)
Variable entry : step_id.
Variable run_step : step_id → list message → Step (list message).
Variable next_step : step_id → list message → option step_id.

(** Modelled from the spec: the step loop of the Run Controller.  Each
    step is executed on the current state; a delta is appended and the
    checkpoint overwritten at the step boundary; an interrupt is
    persisted with the state as it was before the step and the decisions
    the step was given, and no further step runs; a failed step is
    persisted as FAILED.  [limit] is the maximum step count of one call.
    [decisions] are handed to the first step only (the re-executed
    pending step of [resume]); the later steps are first executions. *)
Fixpoint run (limit : nat) (tid : string) (sid : step_id)
    (st : list message) (decisions : list string)
    (σ : gmap string Checkpoint) : gmap string Checkpoint * Outcome :=
  match limit with
  | O => (σ, Error StepLimitExceeded)
  | S n =>
    match replay (run_step sid st) decisions with
    | Delta d =>
      let st' := st ++ d in
      match next_step sid st' with
      | None => (save tid (cp_completed st') σ, Completed st')
      | Some sid' =>
        run n tid sid' st' [] (save tid (cp_running st' sid') σ)
      end
    | Interrupted payload =>
      (save tid (cp_suspended st sid payload decisions) σ,
       Suspended payload)
    | StepFailed e => (save tid (cp_failed st sid e) σ, Error e)
    end
  end.

(** The step loop with no decision ([None]: the steps of [invoke]) or
    with the decision for the first [interrupt] call of the first step
    ([Some decision]). *)
Definition drive (limit : nat) (tid : string) (sid : step_id)
    (st : list message) (cmd : option string)
    (σ : gmap string Checkpoint) : gmap string Checkpoint * Outcome :=
  run limit tid sid st
      (match cmd with
       | None => []
       | Some decision => [decision]
       end) σ.

(** Where a call starts: a completed session begins a new step cycle,
    any other one goes on at its pending step. *)
Definition start_step (cp : Checkpoint) : step_id :=
  match status cp with
  | COMPLETED => entry
  | _ => default entry (pending_step_id cp)
  end.

(** Modelled from the spec: [invoke(thread_id, new_input)]. *)
Definition invoke (limit : nat) (tid : string) (new_input : list message)
    (σ : gmap string Checkpoint) : gmap string Checkpoint * Outcome :=
  match load tid σ with
  | None =>
    drive limit tid entry new_input None
          (save tid (cp_running new_input entry) σ)
  | Some cp =>
    let st := state cp ++ new_input in
    let sid := start_step cp in
    drive limit tid sid st None (save tid (cp_running st sid) σ)
  end.

(** Modelled from the spec: [resume(thread_id, resume_command)].  The
    pending step is executed again on the state of the checkpoint, with
    the decisions it was given before and then the new one, which so
    satisfies the pending [interrupt] call. *)
Definition resume (limit : nat) (tid : string) (cmd : ResumeCommand)
    (σ : gmap string Checkpoint) : gmap string Checkpoint * Outcome :=
  match load tid σ with
  | None => (σ, Error NoPendingInterrupt)
  | Some cp =>
    match status cp, pending_step_id cp with
    | INTERRUPTED, Some sid =>
      run limit tid sid (state cp) (resume_values cp ++ [decision cmd])
          (save tid (cp_running (state cp) sid) σ)
    | _, _ => (σ, Error NoPendingInterrupt)
    end
  end.

(** *** The reference run of resume correctness

    A run in which no step is suspended as long as decisions are left:
    the decisions are there from the start, every [interrupt] call is
    answered on the spot with the next one, and the run goes on as
    usual.  Once the decisions are used up, an [interrupt] call suspends
    the run, and the checkpoint records the decisions its step used. *)
Fixpoint drive_direct (limit : nat) (tid : string) (sid : step_id)
    (st : list message) (decisions : list string)
    (σ : gmap string Checkpoint) : gmap string Checkpoint * Outcome :=
  match limit with
  | O => (σ, Error StepLimitExceeded)
  | S n =>
    match replay_rest (run_step sid st) decisions with
    | (Delta dl, rest) =>
      let st' := st ++ dl in
      match next_step sid st' with
      | None => (save tid (cp_completed st') σ, Completed st')
      | Some sid' =>
        drive_direct n tid sid' st' rest (save tid (cp_running st' sid') σ)
      end
    | (Interrupted payload, _) =>
      (save tid (cp_suspended st sid payload decisions) σ,
       Suspended payload)
    | (StepFailed e, _) => (save tid (cp_failed st sid e) σ, Error e)
    end
  end.

Definition invoke_direct (limit : nat) (tid : string)
    (new_input : list message) (decisions : list string)
    (σ : gmap string Checkpoint) : gmap string Checkpoint * Outcome :=
  match load tid σ with
  | None =>
    drive_direct limit tid entry new_input decisions
                 (save tid (cp_running new_input entry) σ)
  | Some cp =>
    let st := state cp ++ new_input in
    let sid := start_step cp in
    drive_direct limit tid sid st decisions
                 (save tid (cp_running st sid) σ)
  end.

(** A session that is suspended: left so by an [invoke], or by a
    [resume] of a suspended session that was suspended again (by a later
    [interrupt] call of the same step, or by a later step).  The list
    holds the decisions of the resumes so far. *)
Inductive suspended_session (σ0 : gmap string Checkpoint) (tid : string)
    (new_input : list message)
  : list string → gmap string Checkpoint → string → Prop :=
| suspended_by_invoke limit σ1 payload :
    invoke limit tid new_input σ0 = (σ1, Suspended payload) →
    suspended_session σ0 tid new_input [] σ1 payload
| suspended_by_resume limit decisions d σ1 payload σ2 payload' :
    suspended_session σ0 tid new_input decisions σ1 payload →
    resume limit tid {| decision := d |} σ1 = (σ2, Suspended payload') →
    suspended_session σ0 tid new_input (decisions ++ [d]) σ2 payload'.

(** The status of a thread; a thread without a checkpoint is fresh. *)
Definition thread_status (tid : string) (σ : gmap string Checkpoint)
  : option Status := status <$> load tid σ.

End Engine.
Arguments Checkpoint : clear implicits.
End Controller.

(** ** hitl.ipynb: the compiled graph and the three calls of the notebook *)

Module HitlRun.
Section Run.
Variable llm_with_tools : list message → option message.
(** The step limit of one call (the library's recursion limit). *)
Variable limit : nat.

(** [graph = builder.compile(checkpointer=memory)] and
    [graph.invoke({"messages": [...]}, config)] *)
Definition graph_invoke (tid : string) (new_input : list message)
    (σ : gmap string (Controller.Checkpoint Hitl.node))
  : gmap string (Controller.Checkpoint Hitl.node) * Outcome :=
  Controller.invoke Hitl.entry_node (Hitl.run_node llm_with_tools)
                    Hitl.next_node limit tid new_input σ.

(** [graph.invoke(Command(resume=decision), config)] *)
Definition graph_resume (tid : string) (cmd : ResumeCommand)
    (σ : gmap string (Controller.Checkpoint Hitl.node))
  : gmap string (Controller.Checkpoint Hitl.node) * Outcome :=
  Controller.resume (Hitl.run_node llm_with_tools) Hitl.next_node
                    limit tid cmd σ.

Definition thread_id : string := "buy_thread".

Definition ask_price : list message :=
  [HumanMessage "What is the current price of 10 MSFT stocks?"].

Definition ask_buy : list message :=
  [HumanMessage "Buy 10 MSFT stocks at current price."].

(** The notebook from a new [MemorySaver()]: the price question, the
    buy request, then the resume with what the user typed.  The result
    is the final store and the outcome of each of the three calls. *)
Definition notebook (typed : string)
  : gmap string (Controller.Checkpoint Hitl.node)
    * (Outcome * Outcome * Outcome) :=
  let '(σ1, r1) := graph_invoke thread_id ask_price ∅ in
  let '(σ2, r2) := graph_invoke thread_id ask_buy σ1 in
  let '(σ3, r3) := graph_resume thread_id {| decision := typed |} σ2 in
  (σ3, (r1, r2, r3)).
End Run.
End HitlRun.

(** ** chatbot.ipynb: the one-node graph and the chat loop *)

Module Chatbot.

(** [str.lower()] on the ASCII letters.  No other character lowers to
    one of the letters of "quit" or "exit", so the test below agrees
    with Python's on every input. *)
Definition ascii_lower (c : ascii) : ascii :=
  let n := nat_of_ascii c in
  if (65 <=? n)%nat && (n <=? 90)%nat then ascii_of_nat (n + 32) else c.

Fixpoint lower (s : string) : string :=
  match s with
  | EmptyString => EmptyString
  | String c t => String (ascii_lower c) (lower t)
  end.

(** [in_message.lower() in {"quit", "exit"}] *)
Definition is_exit (in_message : string) : bool :=
  String.eqb (lower in_message) "quit" || String.eqb (lower in_message) "exit".

Inductive node := chatbot_node.

(** How the loop ends: the [break], the end of the input, or an
    exception out of [graph.invoke]. *)
Inductive stop := Break | EndOfInput | Raised (e : error).

Section Loop.
(** [llm.invoke] *)
Variable llm : list message → option message.
Variable limit : nat.

Definition chatbot (st : list message) : Step (list message) :=
  match llm st with
  | Some msg => mret [msg]
  | None => Raise UpstreamFailure
  end.

(** [graph = builder.compile()], without a checkpointer: every
    [graph.invoke(state)] is a run of its own, from START to END. *)
Definition graph_invoke (st : list message) : Outcome :=
  snd (Controller.invoke chatbot_node (λ _, chatbot) (λ _ _, None)
                         limit "" st ∅).

(** The [while True] loop over the lines typed by the user; the result
    is what was printed, the value of [state] at the end and why the
    loop stopped. *)
Fixpoint chat_loop (inputs : list string) (state : option (list message))
  : list string * option (list message) * stop :=
  match inputs with
  | [] => ([], state, EndOfInput)
  | in_message :: rest =>
    if is_exit in_message then ([], state, Break)
    else
      let st :=
        match state with
        | None => [HumanMessage in_message]
        | Some s => s ++ [HumanMessage in_message]
        end in
      match graph_invoke st with
      | Completed st' =>
        let '(out, fin, why) := chat_loop rest (Some st') in
        (("Bot: " +:+ from_option content "" (last st')) :: out, fin, why)
      | Suspended _ => ([], Some st, Raised UpstreamFailure)
      | Error e => ([], Some st, Raised e)
      end
  end.

(** One exchange: the user's line, then the reply to the whole
    history. *)
Definition exchange (history : list message) (in_message : string)
    (reply : message) : list message :=
  history ++ [HumanMessage in_message; reply].
End Loop.
End Chatbot.

(** ** A scripted model, to run the notebooks on *)

Module Script.

Definition price_call : tool_call :=
  ToolCall "get_stock_price" {[ "symbol" := VStr "MSFT" ]} "call_1".

Definition buy_call : tool_call :=
  ToolCall "buy_stocks"
           (<["total_price" := VFloat (PyFloat.literal 20030 1)]>
             (<["quantity" := VInt 10]> {[ "symbol" := VStr "MSFT" ]}))
           "call_2".

(** Asks for the price tool on the price question, for the buy tool on
    the buy request, and words a reply after each tool result. *)
Definition llm (st : list message) : option message :=
  match last st with
  | Some (HumanMessage c) =>
    if String.eqb c "What is the current price of 10 MSFT stocks?"
    then Some (AIMessage "" [price_call])
    else if String.eqb c "Buy 10 MSFT stocks at current price."
    then Some (AIMessage "" [buy_call])
    else Some (AIMessage ("You said: " +:+ c) [])
  | Some (ToolMessage c name _) =>
    if String.eqb name "get_stock_price"
    then Some (AIMessage ("The current price of MSFT is $" +:+ c +:+ " per share.") [])
    else if String.eqb c "Buying declined."
    then Some (AIMessage "OK. I have not bought any stocks." [])
    else Some (AIMessage "OK. I have bought 10 shares of MSFT." [])
  | _ => None
  end.

(** A second purchase, and a model that asks for both purchases in one
    message: the tools node then meets two [interrupt] calls. *)
Definition aapl_call : tool_call :=
  ToolCall "buy_stocks"
           (<["total_price" := VFloat (PyFloat.literal 2008 1)]>
             (<["quantity" := VInt 2]> {[ "symbol" := VStr "AAPL" ]}))
           "call_3".

Definition ask_two : list message :=
  [HumanMessage "Buy 10 MSFT and 2 AAPL at current price."].

Definition llm_two (st : list message) : option message :=
  match last st with
  | Some (HumanMessage _) => Some (AIMessage "" [buy_call; aapl_call])
  | Some (ToolMessage _ _ _) => Some (AIMessage "OK. Both orders are handled." [])
  | _ => None
  end.

End Script.

(** What the buy tool answers to a decision. *)
Definition buy_answer (symbol : string) (quantity : Z) (total : spec_float)
    (d : string) : string :=
  if String.eqb d "yes" then Hitl.bought_text symbol quantity total
  else "Buying declined.".

(** Does the tool message, a result or an error message, answer the tool
    call: same name, same id? *)
Definition answers_call (m : message) (c : tool_call) : Prop :=
  match m with
  | ToolMessage _ name id | ToolErrorMessage _ name id =>
    name = tc_name c ∧ id = tc_id c
  | _ => False
  end.

(** Is the message the result of a [buy_stocks] call that ran to its end
    (the purchase or the refusal), as opposed to the error message of a
    call that failed? *)
Definition is_purchase (m : message) : bool :=
  match m with
  | ToolMessage _ name _ => String.eqb name "buy_stocks"
  | _ => false
  end.

(** A model that answers the first line and fails afterwards. *)
Definition llm_once (st : list message) : option message :=
  if (length st <? 2)%nat then Script.llm st else None.

(** * Properties *)

(** ** The float literals of the notebook *)

Example literal_200_3 :
  PyFloat.literal 2003 1 = S754_finite false 7047429729393050 (-45).
Proof. reflexivity. Qed.

Example literal_2003_0 :
  PyFloat.literal 20030 1 = S754_finite false 8809287161741312 (-42).
Proof. reflexivity. Qed.

Example literal_0_0 : PyFloat.literal 0 1 = S754_zero false.
Proof. reflexivity. Qed.

(** The float written [200.3] is within half a unit in the last place of
    the decimal 200.3: [|m / 2^45 - 2003 / 10| <= 2^-46]. *)
Example literal_200_3_nearest :
  2 * Z.abs (10 * 7047429729393050 - 2003 * 2 ^ 45) <= 10.
Proof. vm_compute. discriminate. Qed.

Example literal_200_3_valid :
  valid_binary PyFloat.prec PyFloat.emax (PyFloat.literal 2003 1) = true.
Proof. reflexivity. Qed.

Example repr_examples :
  map PyFloat.repr
      [PyFloat.literal 2003 1; PyFloat.literal 20030 1; PyFloat.literal 1004 1;
       PyFloat.literal 1500 1; PyFloat.literal 876 1; PyFloat.literal 0 1;
       PyFloat.literal 1 5; PyFloat.of_decimal false 1 16;
       PyFloat.of_int (-7)]
  = ["200.3"; "2003.0"; "100.4"; "150.0"; "87.6"; "0.0"; "1e-05"; "1e+16";
     "-7.0"].
Proof. vm_compute. reflexivity. Qed.

Example format_f_examples :
  map (PyFloat.format_f 2)
      [PyFloat.literal 20030 1; PyFloat.literal 2003 1; PyFloat.literal 2675 3;
       PyFloat.literal 5 3; PyFloat.literal 0 1; PyFloat.of_int (-3)]
  = ["2003.00"; "200.30"; "2.67"; "0.01"; "0.00"; "-3.00"].
Proof. vm_compute. reflexivity. Qed.

(** ** The tools of hitl.ipynb *)

Lemma prices_lookup_None (symbol : string) :
  symbol ∉ ["MSFT"; "AAPL"; "AMZN"; "RIL"] → Hitl.prices !! symbol = None.
Proof.
  intros Hnot. unfold Hitl.prices.
  repeat (rewrite lookup_insert_ne; [| intros <-; apply Hnot; set_solver]).
  apply lookup_empty.
Qed.

Lemma buy_stocks_unfold (symbol : string) (quantity : Z) (total : spec_float) :
  Hitl.buy_stocks symbol quantity total
  = Interrupt (Hitl.approve_prompt symbol quantity total)
      (λ decision,
         if String.eqb decision "yes"
         then Done (Hitl.bought_text symbol quantity total)
         else Done "Buying declined.").
Proof.
  unfold Hitl.buy_stocks, interrupt, mbind, step_mbind. cbn [step_bind].
  f_equal.
Qed.

(** C9: a symbol that is not a key of the lookup table has the default
    price 0.0; the call does not fail, and the tool call for such a symbol
    finishes with the text of 0.0. *)
Theorem get_stock_price_default (symbol id : string) :
  symbol ∉ ["MSFT"; "AAPL"; "AMZN"; "RIL"] →
  Hitl.get_stock_price symbol = PyFloat.literal 0 1
  ∧ Hitl.invoke_tool
      (ToolCall "get_stock_price" {[ "symbol" := VStr symbol ]} id)
    = Done "0.0".
Proof.
  intros Hnot.
  assert (Hitl.get_stock_price symbol = PyFloat.literal 0 1) as Hprice.
  { unfold Hitl.get_stock_price. by rewrite prices_lookup_None. }
  split; [done |].
  unfold Hitl.invoke_tool, Hitl.arg_str. cbn [tc_name tc_args String.eqb].
  rewrite lookup_singleton_eq, Hprice. reflexivity.
Qed.

Lemma get_stock_price_default_witness :
  ("GOOG" ∉ ["MSFT"; "AAPL"; "AMZN"; "RIL"])
  ∧ Hitl.get_stock_price "GOOG" = PyFloat.literal 0 1
  ∧ Hitl.invoke_tool
      (ToolCall "get_stock_price" {[ "symbol" := VStr "GOOG" ]} "call_0")
    = Done "0.0".
Proof.
  assert ("GOOG" ∉ ["MSFT"; "AAPL"; "AMZN"; "RIL"]) as Hnot.
  { intros Hin. repeat (apply elem_of_cons in Hin as [Heq | Hin];
                        [discriminate Heq |]).
    by apply elem_of_nil in Hin. }
  split; [exact Hnot |].
  exact (get_stock_price_default "GOOG" "call_0" Hnot).
Defined.

(** *** Steps of the hitl graph *)

Section HitlSteps.
Variable llm : list message → option message.

Lemma chatbot_step (st : list message) (msg : message) (ds : list string) :
  llm st = Some msg →
  replay (Hitl.run_node llm Hitl.chatbot st) ds = Delta [msg].
Proof.
  intros Hllm. cbn [Hitl.run_node]. unfold Hitl.chatbot_node.
  by rewrite Hllm.
Qed.

Lemma chatbot_step_failed (st : list message) (ds : list string) :
  llm st = None →
  replay (Hitl.run_node llm Hitl.chatbot st) ds = StepFailed UpstreamFailure.
Proof.
  intros Hllm. cbn [Hitl.run_node]. unfold Hitl.chatbot_node.
  by rewrite Hllm.
Qed.

Lemma tools_condition_snoc (st : list message) (m : message) :
  Hitl.tools_condition (st ++ [m])
  = match m with
    | AIMessage _ (_ :: _) => Some Hitl.tools
    | _ => None
    end.
Proof. unfold Hitl.tools_condition. by rewrite last_snoc. Qed.

Lemma tool_node_snoc (st : list message) (c : string)
    (calls : list tool_call) :
  Hitl.tool_node (st ++ [AIMessage c calls]) = Hitl.run_tool_calls calls.
Proof. unfold Hitl.tool_node. by rewrite last_snoc. Qed.
End HitlSteps.

(** *** Executions of a step *)

Lemma replay_delta_inv {A} (p : Step A) (d : A) :
  replay p [] = Delta d → p = Done d.
Proof.
  destruct p as [a | payload k | e]; cbn [replay]; intros H;
    [by injection H as -> | discriminate | discriminate].
Qed.

Lemma replay_failed_inv {A} (p : Step A) (e : error) :
  replay p [] = StepFailed e → p = Raise e.
Proof.
  destruct p as [a | payload k | e']; cbn [replay]; intros H;
    [discriminate | discriminate | by injection H as ->].
Qed.

Lemma replay_rest_nil {A} (p : Step A) :
  replay_rest p [] = (replay p [], []).
Proof. by destruct p. Qed.

(** When a step is suspended after the decisions [ds], one more decision
    is used up by the pending [interrupt] call: nothing of [ds ++ [d]] is
    left over. *)
Lemma replay_rest_pending {A} (p : Step A) :
  ∀ ds payload d,
    replay p ds = Interrupted payload →
    replay_rest p (ds ++ [d]) = (replay p (ds ++ [d]), []).
Proof.
  induction p as [a | payload0 k IH | e]; intros ds payload d Hp;
    [discriminate Hp | | discriminate Hp].
  destruct ds as [| d0 ds]; cbn [app replay replay_rest] in *.
  - apply replay_rest_nil.
  - by eapply IH.
Qed.

(** If that decision lets the step finish (or fail), the decisions that
    come after it are left for the later steps. *)
Lemma replay_rest_finished {A} (p : Step A) :
  ∀ ds payload d more,
    replay p ds = Interrupted payload →
    (∀ dl, replay p (ds ++ [d]) = Delta dl →
           replay_rest p (ds ++ d :: more) = (Delta dl, more))
    ∧ (∀ e, replay p (ds ++ [d]) = StepFailed e →
            replay_rest p (ds ++ d :: more) = (StepFailed e, more)).
Proof.
  induction p as [a | payload0 k IH | e]; intros ds payload d more Hp;
    [discriminate Hp | | discriminate Hp].
  destruct ds as [| d0 ds]; cbn [app replay replay_rest] in *.
  - split.
    + intros dl Hdl. by rewrite (replay_delta_inv _ _ Hdl).
    + intros e Hf. by rewrite (replay_failed_inv _ _ Hf).
  - by eapply IH.
Qed.

(** ** The run controller *)

Section ControllerFacts.
Context {step_id : Type}.
Variable entry : step_id.
Variable run_step : step_id → list message → Step (list message).
Variable next_step : step_id → list message → option step_id.

Abbreviation run := (Controller.run run_step next_step).
Abbreviation drive := (Controller.drive run_step next_step).
Abbreviation drive_direct := (Controller.drive_direct run_step next_step).
Abbreviation invoke := (Controller.invoke entry run_step next_step).
Abbreviation invoke_direct :=
  (Controller.invoke_direct entry run_step next_step).
Abbreviation resume := (Controller.resume run_step next_step).
Abbreviation store := (gmap string (Controller.Checkpoint step_id)).

(** The ways one turn of the step loop goes. *)
Lemma run_delta n tid sid st ds (σ : store) d sid' :
  replay (run_step sid st) ds = Delta d →
  next_step sid (st ++ d) = Some sid' →
  run (S n) tid sid st ds σ
  = run n tid sid' (st ++ d) []
        (Controller.save tid (Controller.cp_running (st ++ d) sid') σ).
Proof. intros He Hn. cbn [Controller.run]. by rewrite He, Hn. Qed.

Lemma run_end n tid sid st ds (σ : store) d :
  replay (run_step sid st) ds = Delta d →
  next_step sid (st ++ d) = None →
  run (S n) tid sid st ds σ
  = (Controller.save tid (Controller.cp_completed (st ++ d)) σ,
     Completed (st ++ d)).
Proof. intros He Hn. cbn [Controller.run]. by rewrite He, Hn. Qed.

Lemma run_interrupted n tid sid st ds (σ : store) payload :
  replay (run_step sid st) ds = Interrupted payload →
  run (S n) tid sid st ds σ
  = (Controller.save tid (Controller.cp_suspended st sid payload ds) σ,
     Suspended payload).
Proof. intros He. cbn [Controller.run]. by rewrite He. Qed.

Lemma run_failed n tid sid st ds (σ : store) e :
  replay (run_step sid st) ds = StepFailed e →
  run (S n) tid sid st ds σ
  = (Controller.save tid (Controller.cp_failed st sid e) σ, Error e).
Proof. intros He. cbn [Controller.run]. by rewrite He. Qed.

(** C8: what [save] stores under a thread id is what [load] gives back
    for it, whatever the store held before. *)
Theorem checkpoint_round_trip (tid : string)
    (cp : Controller.Checkpoint step_id) (σ : store) :
  Controller.load tid (Controller.save tid cp σ) = Some cp.
Proof. unfold Controller.load, Controller.save. apply lookup_insert_eq. Qed.

(** Saving the same checkpoint twice is saving it once, and a save
    leaves the other threads alone. *)
Lemma save_idempotent (tid : string) (cp : Controller.Checkpoint step_id)
    (σ : store) :
  Controller.save tid cp (Controller.save tid cp σ)
  = Controller.save tid cp σ.
Proof. unfold Controller.save. apply insert_insert_eq. Qed.

Lemma load_save_other (tid tid' : string)
    (cp : Controller.Checkpoint step_id) (σ : store) :
  tid ≠ tid' →
  Controller.load tid' (Controller.save tid cp σ) = Controller.load tid' σ.
Proof. intros Hne. unfold Controller.load, Controller.save.
       by apply lookup_insert_ne. Qed.

(** C7: [resume] on a thread that is not INTERRUPTED (completed, failed,
    running, or fresh: without a checkpoint) fails with
    [NoPendingInterrupt] and gives back the store as it was. *)
Theorem resume_rejected (limit : nat) (tid : string) (cmd : ResumeCommand)
    (σ : store) :
  Controller.thread_status tid σ ≠ Some INTERRUPTED →
  resume limit tid cmd σ = (σ, Error NoPendingInterrupt).
Proof.
  unfold Controller.thread_status, Controller.resume.
  destruct (Controller.load tid σ) as [cp |]; [| done].
  cbn [fmap option_fmap option_map].
  by destruct (Controller.status cp).
Qed.

(** *** The state of a thread only grows *)

(** One call of the step loop: a thread's checkpoint is never lost, and
    the state it held is a prefix of the state it holds afterwards. *)
Lemma run_append_only limit :
  ∀ tid sid st ds (σ σ' : store) r tid' cp,
    run limit tid sid st ds σ = (σ', r) →
    σ !! tid' = Some cp →
    (tid' = tid → Controller.state cp `prefix_of` st) →
    ∃ cp', σ' !! tid' = Some cp'
           ∧ Controller.state cp `prefix_of` Controller.state cp'
           ∧ (tid' ≠ tid → cp' = cp).
Proof.
  induction limit as [| n IH]; intros tid sid st ds σ σ' r tid' cp Hrun Hcp Hpre.
  { cbn [Controller.run] in Hrun. injection Hrun as <- <-.
    exists cp. done. }
  assert (∀ cp1, (tid' = tid → Controller.state cp `prefix_of` Controller.state cp1) →
                 ∃ cp', Controller.save tid cp1 σ !! tid' = Some cp'
                        ∧ Controller.state cp `prefix_of` Controller.state cp'
                        ∧ (tid' ≠ tid → cp' = cp)) as Hsave.
  { intros cp1 Hcp1. unfold Controller.save.
    destruct (decide (tid = tid')) as [<- | Hne].
    - exists cp1. rewrite lookup_insert_eq. split_and!; [done | by apply Hcp1 | done].
    - exists cp. rewrite lookup_insert_ne by done. split_and!; done. }
  cbn [Controller.run] in Hrun.
  destruct (replay (run_step sid st) ds) as [d | payload | e].
  - destruct (next_step sid (st ++ d)) as [sid' |].
    + destruct (Hsave (Controller.cp_running (st ++ d) sid')) as (cp1 & Hcp1 & Hle1 & Hsame1).
      { intros Heq. cbn. etrans; [by apply Hpre | by apply prefix_app_r]. }
      destruct (IH _ _ _ _ _ _ _ tid' cp1 Hrun Hcp1) as (cp' & Hcp' & Hle & Hsame).
      { intros ->. unfold Controller.save in Hcp1.
        rewrite lookup_insert_eq in Hcp1. by injection Hcp1 as <-. }
      exists cp'. split_and!; [done | by etrans |].
      intros Hne. rewrite (Hsame Hne). by apply Hsame1.
    + injection Hrun as <- <-. apply Hsave. intros Heq. cbn.
      etrans; [by apply Hpre | by apply prefix_app_r].
  - injection Hrun as <- <-. apply Hsave. intros Heq. cbn. by apply Hpre.
  - injection Hrun as <- <-. apply Hsave. intros Heq. cbn. by apply Hpre.
Qed.

(** C5: for every thread with a checkpoint, [invoke] and [resume] (and
    with them every step they execute) keep the checkpoint, and the state
    it held before the call is a prefix of the state it holds after: the
    records are only appended to, never dropped or reordered; the threads
    the call is not about keep their checkpoint as it is. *)
Theorem state_append_only (limit : nat) (tid : string)
    (new_input : list message) (cmd : ResumeCommand) (σ : store)
    (tid' : string) (cp : Controller.Checkpoint step_id) :
  σ !! tid' = Some cp →
  (∃ cp', (invoke limit tid new_input σ).1 !! tid' = Some cp'
          ∧ Controller.state cp `prefix_of` Controller.state cp'
          ∧ (tid' ≠ tid → cp' = cp))
  ∧ (∃ cp', (resume limit tid cmd σ).1 !! tid' = Some cp'
            ∧ Controller.state cp `prefix_of` Controller.state cp'
            ∧ (tid' ≠ tid → cp' = cp)).
Proof.
  intros Hcp. split.
  - unfold Controller.invoke, Controller.load, Controller.drive.
    destruct (σ !! tid) as [cp0 |] eqn:Hload.
    + cbv zeta.
      destruct (run limit tid (Controller.start_step entry cp0)
                  (Controller.state cp0 ++ new_input) [] _) as [σ' r] eqn:Hrun.
      cbn [fst].
      destruct (decide (tid = tid')) as [<- | Hne].
      * assert (cp0 = cp) as -> by congruence.
        destruct (run_append_only _ _ _ _ _ _ _ _ tid _ Hrun
                    (lookup_insert_eq _ _ _) (λ _, reflexivity _))
          as (cp' & Hcp' & Hle & Hsame).
        exists cp'. split_and!; [done | | done].
        etrans; [| exact Hle]. cbn. by apply prefix_app_r.
      * eapply (run_append_only _ _ _ _ _ _ _ _ tid' cp) in Hrun
          as (cp' & Hcp' & Hle & Hsame); [by exists cp' | | done].
        unfold Controller.save. by rewrite lookup_insert_ne.
    + destruct (run limit tid entry new_input [] _) as [σ' r] eqn:Hrun.
      cbn [fst].
      assert (tid ≠ tid') as Hne by (intros <-; congruence).
      eapply (run_append_only _ _ _ _ _ _ _ _ tid' cp) in Hrun
        as (cp' & Hcp' & Hle & Hsame); [by exists cp' | | done].
      unfold Controller.save. by rewrite lookup_insert_ne.
  - unfold Controller.resume, Controller.load.
    destruct (σ !! tid) as [cp0 |] eqn:Hload;
      [| exists cp; by split_and!].
    destruct (Controller.status cp0); try (exists cp; by split_and!).
    destruct (Controller.pending_step_id cp0) as [sid |];
      [| exists cp; by split_and!].
    destruct (run limit tid sid (Controller.state cp0) _ _) as [σ' r] eqn:Hrun.
    cbn [fst].
    destruct (decide (tid = tid')) as [<- | Hne].
    + assert (cp0 = cp) as -> by congruence.
      destruct (run_append_only _ _ _ _ _ _ _ _ tid _ Hrun
                  (lookup_insert_eq _ _ _) (λ _, reflexivity _))
        as (cp' & Hcp' & Hle & Hsame).
      exists cp'. split_and!; [done | exact Hle | done].
    + eapply (run_append_only _ _ _ _ _ _ _ _ tid' cp) in Hrun
        as (cp' & Hcp' & Hle & Hsame); [by exists cp' | | done].
      unfold Controller.save. by rewrite lookup_insert_ne.
Qed.

(** *** Resuming against the uninterrupted run *)

(** Without decisions the reference run is the step loop. *)
Lemma drive_direct_nil n :
  ∀ tid sid st (σ : store),
    drive_direct n tid sid st [] σ = run n tid sid st [] σ.
Proof.
  induction n as [| n IH]; intros tid sid st σ; [done |].
  cbn [Controller.run Controller.drive_direct]. rewrite replay_rest_nil.
  destruct (replay (run_step sid st) []) as [dl | payload | e]; [| done | done].
  destruct (next_step sid (st ++ dl)); [apply IH | done].
Qed.

(** Re-executing a suspended step with its earlier decisions and the new
    one is running it with these decisions at hand. *)
Lemma run_resumed_direct m tid sid st ds d (σ : store) payload :
  replay (run_step sid st) ds = Interrupted payload →
  run m tid sid st (ds ++ [d]) σ = drive_direct m tid sid st (ds ++ [d]) σ.
Proof.
  intros Hp. destruct m as [| m]; [done |].
  cbn [Controller.run Controller.drive_direct].
  rewrite (replay_rest_pending _ _ _ d Hp).
  destruct (replay (run_step sid st) (ds ++ [d])) as [dl | payload' | e];
    [| done | done].
  destruct (next_step sid (st ++ dl)); [| done].
  by rewrite drive_direct_nil.
Qed.

(** A call without decisions that is suspended: where it stopped, and
    how the reference run gets there. *)
Lemma run_suspended limit :
  ∀ tid sid st (σ σ1 : store) payload,
    run limit tid sid st [] σ = (σ1, Suspended payload) →
    ∃ (k : nat) sid' st' (σpre : store),
      σ1 = Controller.save tid
             (Controller.cp_suspended st' sid' payload []) σpre
      ∧ (σ !! tid = Some (Controller.cp_running st sid) →
         σpre !! tid = Some (Controller.cp_running st' sid'))
      ∧ replay (run_step sid' st') [] = Interrupted payload
      ∧ ∀ m more,
          drive_direct (k + m) tid sid st more σ
          = drive_direct m tid sid' st' more σpre.
Proof.
  induction limit as [| n IH]; intros tid sid st σ σ1 payload Hrun;
    [discriminate Hrun |].
  cbn [Controller.run] in Hrun.
  destruct (replay (run_step sid st) []) as [dl | payload' | e] eqn:Hexec;
    [| | discriminate Hrun].
  - apply replay_delta_inv in Hexec.
    destruct (next_step sid (st ++ dl)) as [sid2 |] eqn:Hnext;
      [| discriminate Hrun].
    apply IH in Hrun as (k & sid' & st' & σpre & Hσ1 & Hpre & Hint & Heq).
    exists (S k), sid', st', σpre. split_and!; [done | | done |].
    + intros _. apply Hpre. apply lookup_insert_eq.
    + intros m more. rewrite <- Heq.
      change (S k + m)%nat with (S (k + m)).
      cbn [Controller.drive_direct]. rewrite Hexec.
      cbn [replay_rest]. by rewrite Hnext.
  - injection Hrun as <- <-.
    exists 0%nat, sid, st, σ. split_and!; done.
Qed.

(** A resume that is suspended again: by a later [interrupt] call of the
    same step, or by a later step. *)
Lemma run_suspended_again limit tid sid st ds d (σ σ2 : store)
    payload payload' :
  replay (run_step sid st) ds = Interrupted payload →
  σ !! tid = Some (Controller.cp_running st sid) →
  run limit tid sid st (ds ++ [d]) σ = (σ2, Suspended payload') →
  ∃ (k : nat) sid' st' ds' (σpre : store),
    σ2 = Controller.save tid
           (Controller.cp_suspended st' sid' payload' ds') σpre
    ∧ σpre !! tid = Some (Controller.cp_running st' sid')
    ∧ replay (run_step sid' st') ds' = Interrupted payload'
    ∧ ∀ m more,
        drive_direct (k + m) tid sid st (ds ++ d :: more) σ
        = drive_direct m tid sid' st' (ds' ++ more) σpre.
Proof.
  intros Hp Hcp Hrun. destruct limit as [| n]; [discriminate Hrun |].
  cbn [Controller.run] in Hrun.
  destruct (replay (run_step sid st) (ds ++ [d])) as [dl | payload2 | e]
    eqn:Hexec; [| | discriminate Hrun].
  - destruct (next_step sid (st ++ dl)) as [sid2 |] eqn:Hnext;
      [| discriminate Hrun].
    apply run_suspended in Hrun
      as (k & sid' & st' & σpre & Hσ2 & Hpre & Hint & Heq).
    exists (S k), sid', st', [], σpre. split_and!; [done | | done |].
    + apply Hpre. apply lookup_insert_eq.
    + intros m more. rewrite <- Heq.
      change (S k + m)%nat with (S (k + m)).
      cbn [Controller.drive_direct].
      rewrite (proj1 (replay_rest_finished _ _ _ d more Hp) _ Hexec).
      by rewrite Hnext.
  - injection Hrun as <- <-.
    exists 0%nat, sid, st, (ds ++ [d]), σ. split_and!; [done | done | done |].
    intros m more. by rewrite <- app_assoc.
Qed.

(** Every suspended session is suspended at a step of which the
    checkpoint holds the state it was started on and the decisions it was
    given; and the reference run, which has the decisions of the session
    from the start, reaches that step in the same store. *)
Lemma suspended_session_inv (σ0 σ1 : store) tid new_input decisions payload :
  Controller.suspended_session entry run_step next_step σ0 tid new_input
                               decisions σ1 payload →
  ∃ (k : nat) sid st ds (σpre : store),
    σ1 = Controller.save tid (Controller.cp_suspended st sid payload ds) σpre
    ∧ σpre !! tid = Some (Controller.cp_running st sid)
    ∧ replay (run_step sid st) ds = Interrupted payload
    ∧ ∀ m more,
        invoke_direct (k + m) tid new_input (decisions ++ more) σ0
        = drive_direct m tid sid st (ds ++ more) σpre.
Proof.
  induction 1 as [limit σ1 payload Hrun
                 | limit decisions d σ1 payload σ2 payload' _ IH Hrun].
  - assert (∃ sid0 st0,
              run limit tid sid0 st0 []
                  (Controller.save tid (Controller.cp_running st0 sid0) σ0)
              = (σ1, Suspended payload)
              ∧ ∀ n more, invoke_direct n tid new_input more σ0
                          = drive_direct n tid sid0 st0 more
                              (Controller.save tid
                                 (Controller.cp_running st0 sid0) σ0))
      as (sid0 & st0 & Hrun0 & Hdirect).
    { unfold Controller.invoke, Controller.invoke_direct, Controller.drive in *.
      destruct (Controller.load tid σ0) as [cp0 |]; eauto. }
    apply run_suspended in Hrun0
      as (k & sid & st & σpre & Hσ1 & Hpre & Hint & Heq).
    exists k, sid, st, [], σpre. split_and!; [done | | done |].
    + apply Hpre. apply lookup_insert_eq.
    + intros m more. cbn [app]. by rewrite Hdirect, Heq.
  - destruct IH as (k & sid & st & ds & σpre & -> & Hpre & Hint & Heq).
    unfold Controller.resume, Controller.load, Controller.save in Hrun.
    rewrite lookup_insert_eq in Hrun.
    cbn [Controller.status Controller.pending_step_id Controller.state
         Controller.resume_values Controller.cp_suspended decision] in Hrun.
    rewrite insert_insert_eq, (insert_id _ _ _ Hpre) in Hrun.
    apply (run_suspended_again _ _ _ _ _ _ _ _ _ _ Hint Hpre) in Hrun
      as (k' & sid' & st' & ds' & σpre' & Hσ2 & Hpre' & Hint' & Heq').
    exists (k + k')%nat, sid', st', ds', σpre'.
    split_and!; [done | done | done |].
    intros m more. rewrite <- Heq'.
    rewrite <- (Nat.add_assoc k k' m), <- (app_assoc decisions [d] more).
    apply Heq.
Qed.

(** C1: take a session that is suspended at a step S with payload P,
    whether an [invoke] left it so or a [resume] that was suspended again.
    The checkpoint names S and holds the state S was started on and the
    decisions it was given, after which S stops at P.  A [resume] with a
    decision (such as "yes") runs S again on that state, with those
    decisions and then the new one, which so reaches the pending
    [interrupt] call: S is not skipped, and the delta it then gives is
    part of the final state.  The store and the outcome of the [resume]
    are those of the run that is never suspended but has the decisions of
    the session, the new one last, at hand from the start.  The steps of
    the embedding are functions of the state and the decisions alone. *)
Theorem resume_correct (σ0 σ1 : store) (tid : string)
    (new_input : list message) (decisions : list string)
    (payload : string) :
  Controller.suspended_session entry run_step next_step σ0 tid new_input
                               decisions σ1 payload →
  ∃ (k : nat) (pending : step_id) (st : list message)
    (answered : list string),
    Controller.load tid σ1
    = Some (Controller.cp_suspended st pending payload answered)
    ∧ replay (run_step pending st) answered = Interrupted payload
    ∧ ∀ (m : nat) (d : string),
        resume m tid {| decision := d |} σ1
        = run m tid pending st (answered ++ [d])
              (Controller.save tid (Controller.cp_running st pending) σ1)
        ∧ (∀ dl, replay (run_step pending st) (answered ++ [d]) = Delta dl →
             ∃ cp', (resume (1 + m) tid {| decision := d |} σ1).1 !! tid
                    = Some cp'
                    ∧ (st ++ dl) `prefix_of` Controller.state cp')
        ∧ resume m tid {| decision := d |} σ1
          = invoke_direct (k + m) tid new_input (decisions ++ [d]) σ0.
Proof.
  intros Hsession.
  apply suspended_session_inv in Hsession
    as (k & pending & st & answered & σpre & -> & Hpre & Hint & Heq).
  exists k, pending, st, answered.
  assert (Controller.load tid
            (Controller.save tid
               (Controller.cp_suspended st pending payload answered) σpre)
          = Some (Controller.cp_suspended st pending payload answered))
    as Hload by apply lookup_insert_eq.
  split_and!; [done | done |].
  intros m d.
  assert (∀ n, resume n tid {| decision := d |}
                 (Controller.save tid
                    (Controller.cp_suspended st pending payload answered) σpre)
               = run n tid pending st (answered ++ [d])
                     (Controller.save tid (Controller.cp_running st pending)
                        (Controller.save tid
                           (Controller.cp_suspended st pending payload answered)
                           σpre)))
    as Hres.
  { intros n. unfold Controller.resume. by rewrite Hload. }
  split_and!; [apply Hres | |].
  - intros dl Hdl. rewrite Hres.
    change (1 + m)%nat with (S m). cbn [Controller.run]. rewrite Hdl.
    destruct (next_step pending (st ++ dl)) as [sid' |].
    + destruct (run m tid sid' (st ++ dl) [] _) as [σ' r] eqn:Hrest.
      cbn [fst].
      destruct (run_append_only _ _ _ _ _ _ _ _ tid _ Hrest
                  (lookup_insert_eq _ _ _) (λ _, reflexivity _))
        as (cp' & Hcp' & Hle & _).
      by exists cp'.
    + cbn [fst]. eexists. split; [apply lookup_insert_eq | done].
  - rewrite Hres. unfold Controller.save at 1 2.
    rewrite insert_insert_eq, (insert_id _ _ _ Hpre).
    rewrite (run_resumed_direct _ _ _ _ _ _ _ _ Hint).
    symmetry. apply Heq.
Qed.
End ControllerFacts.

(** ** The buy tool and the tools node *)

Lemma invoke_tool_buy_stocks (args : gmap string value) (id symbol : string)
    (quantity : Z) (total : spec_float) :
  Hitl.arg_str args "symbol" = Some symbol →
  Hitl.arg_int args "quantity" = Some quantity →
  Hitl.arg_float args "total_price" = Some total →
  Hitl.invoke_tool (ToolCall "buy_stocks" args id)
  = Hitl.buy_stocks symbol quantity total.
Proof.
  intros Hs Hq Ht. unfold Hitl.invoke_tool. cbn [tc_name tc_args].
  change (String.eqb "buy_stocks" "get_stock_price") with false.
  change (String.eqb "buy_stocks" "buy_stocks") with true.
  cbv iota. by rewrite Hs, Hq, Ht.
Qed.

Lemma execute_buy_stocks (symbol : string) (quantity : Z)
    (total : spec_float) :
  execute (Hitl.buy_stocks symbol quantity total) None
  = Interrupted (Hitl.approve_prompt symbol quantity total)
  ∧ ∀ d, execute (Hitl.buy_stocks symbol quantity total) (Some d)
         = Delta (buy_answer symbol quantity total d).
Proof.
  rewrite buy_stocks_unfold. split; [done |].
  intros d. unfold execute. cbn [replay]. unfold buy_answer.
  by destruct (String.eqb d "yes").
Qed.

(** A well-formed purchase in the tools node: its first [interrupt] call
    takes the next decision and gives the tool message. *)
Lemma run_one_buy (args : gmap string value) (id symbol : string)
    (quantity : Z) (total : spec_float) (ds : list string) :
  Hitl.arg_str args "symbol" = Some symbol →
  Hitl.arg_int args "quantity" = Some quantity →
  Hitl.arg_float args "total_price" = Some total →
  replay_rest (Hitl.run_one (ToolCall "buy_stocks" args id)) ds
  = match ds with
    | [] => (Interrupted (Hitl.approve_prompt symbol quantity total), [])
    | d :: rest =>
      (Delta (ToolMessage (buy_answer symbol quantity total d)
                          "buy_stocks" id), rest)
    end.
Proof.
  intros Hs Hq Ht. unfold Hitl.run_one.
  rewrite (invoke_tool_buy_stocks _ _ _ _ _ Hs Hq Ht), buy_stocks_unfold.
  unfold mbind, step_mbind, mret, step_ret.
  cbn [step_bind step_catch replay_rest tc_name tc_id].
  destruct ds as [| d rest]; [done |]. unfold buy_answer.
  by destruct (String.eqb d "yes").
Qed.

Lemma replay_rest_fst {A} (p : Step A) :
  ∀ ds, (replay_rest p ds).1 = replay p ds.
Proof.
  induction p as [a | payload k IH | e]; intros ds; [done | | done].
  destruct ds as [| d ds]; [done | apply IH].
Qed.

(** A step followed by another: the second gets the decisions the first
    leaves. *)
Lemma replay_rest_bind {A B} (p : Step A) (f : A → Step B) :
  ∀ ds, replay_rest (p ≫= f) ds
        = match replay_rest p ds with
          | (Delta a, rest) => replay_rest (f a) rest
          | (Interrupted payload, rest) => (Interrupted payload, rest)
          | (StepFailed e, rest) => (StepFailed e, rest)
          end.
Proof.
  induction p as [a | payload k IH | e]; intros ds; [done | | done].
  destruct ds as [| d ds]; [done | apply IH].
Qed.

Lemma replay_bind {A B} (p : Step A) (f : A → Step B) (ds : list string) :
  replay (p ≫= f) ds
  = match replay_rest p ds with
    | (Delta a, rest) => replay (f a) rest
    | (Interrupted payload, _) => Interrupted payload
    | (StepFailed e, _) => StepFailed e
    end.
Proof.
  rewrite <- replay_rest_fst, replay_rest_bind.
  destruct (replay_rest p ds) as [[a | payload | e] rest]; [| done | done].
  apply replay_rest_fst.
Qed.

Lemma replay_bind_map {A B} (p : Step A) (g : A → B) (ds : list string) :
  replay (p ≫= λ a, mret (g a)) ds
  = match replay p ds with
    | Delta a => Delta (g a)
    | Interrupted payload => Interrupted payload
    | StepFailed e => StepFailed e
    end.
Proof.
  rewrite replay_bind, <- (replay_rest_fst p ds).
  by destruct (replay_rest p ds) as [[a | payload | e] rest].
Qed.

(** The tools node on the calls [c :: cs]. *)
Lemma replay_run_tool_calls_cons (c : tool_call) (cs : list tool_call)
    (ds : list string) :
  replay (Hitl.run_tool_calls (c :: cs)) ds
  = match replay_rest (Hitl.run_one c) ds with
    | (Delta m, rest) =>
      match replay (Hitl.run_tool_calls cs) rest with
      | Delta msgs => Delta (m :: msgs)
      | Interrupted payload => Interrupted payload
      | StepFailed e => StepFailed e
      end
    | (Interrupted payload, _) => Interrupted payload
    | (StepFailed e, _) => StepFailed e
    end.
Proof.
  cbn [Hitl.run_tool_calls]. rewrite replay_bind.
  destruct (replay_rest (Hitl.run_one c) ds) as [[m | payload | e] rest];
    [| done | done].
  apply replay_bind_map.
Qed.

(** The tools node on a state whose last message asks for one buy. *)
Lemma tool_node_buy (st : list message) (c : string)
    (args : gmap string value) (id symbol : string) (quantity : Z)
    (total : spec_float) :
  Hitl.arg_str args "symbol" = Some symbol →
  Hitl.arg_int args "quantity" = Some quantity →
  Hitl.arg_float args "total_price" = Some total →
  let p := Hitl.tool_node (st ++ [AIMessage c [ToolCall "buy_stocks" args id]]) in
  execute p None = Interrupted (Hitl.approve_prompt symbol quantity total)
  ∧ ∀ d, execute p (Some d)
         = Delta [ToolMessage (buy_answer symbol quantity total d)
                              "buy_stocks" id].
Proof.
  intros Hs Hq Ht p. subst p. rewrite tool_node_snoc. unfold execute.
  split; [| intros d]; rewrite replay_run_tool_calls_cons,
    (run_one_buy _ _ _ _ _ _ Hs Hq Ht); done.
Qed.

Example approve_prompt_MSFT :
  Hitl.approve_prompt "MSFT" 10 (PyFloat.literal 20030 1)
  = "Approve buying 10 MSFT stocks for $2003.00?".
Proof. vm_compute. reflexivity. Qed.

Example bought_text_MSFT :
  Hitl.bought_text "MSFT" 10 (PyFloat.literal 20030 1)
  = "You bought 10 shares of MSFT for a total price of 2003.0".
Proof. vm_compute. reflexivity. Qed.

Example buy_call_args :
  Hitl.arg_str (tc_args Script.buy_call) "symbol" = Some "MSFT"
  ∧ Hitl.arg_int (tc_args Script.buy_call) "quantity" = Some 10
  ∧ Hitl.arg_float (tc_args Script.buy_call) "total_price"
    = Some (PyFloat.literal 20030 1).
Proof. vm_compute. done. Qed.

(** C3: [buy_stocks] for 10 shares of MSFT at a total price of 2003.0
    stops at its [interrupt] call with the payload
    "Approve buying 10 MSFT stocks for $2003.00?" (two decimals after a
    dollar sign), and so does the tools node on a state whose last message
    asks for that purchase. *)
Theorem buy_stocks_interrupt_payload (st : list message) (c : string) :
  execute (Hitl.buy_stocks "MSFT" 10 (PyFloat.literal 20030 1)) None
  = Interrupted "Approve buying 10 MSFT stocks for $2003.00?"
  ∧ execute (Hitl.tool_node (st ++ [AIMessage c [Script.buy_call]])) None
    = Interrupted "Approve buying 10 MSFT stocks for $2003.00?".
Proof.
  rewrite <- approve_prompt_MSFT. split.
  - apply execute_buy_stocks.
  - destruct buy_call_args as (Hs & Hq & Ht).
    apply (tool_node_buy st c _ "call_2" _ _ _ Hs Hq Ht).
Qed.

(** C10: with any decision other than the exact string "yes" the buy
    tool returns "Buying declined." and not the purchase text; the
    purchase text is what it returns for "yes". *)
Theorem buy_stocks_declined_unless_yes (symbol : string) (quantity : Z)
    (total : spec_float) (d : string) :
  d ≠ "yes" →
  execute (Hitl.buy_stocks symbol quantity total) (Some d)
  = Delta "Buying declined."
  ∧ execute (Hitl.buy_stocks symbol quantity total) (Some d)
    ≠ Delta (Hitl.bought_text symbol quantity total)
  ∧ execute (Hitl.buy_stocks symbol quantity total) (Some "yes")
    = Delta (Hitl.bought_text symbol quantity total).
Proof.
  intros Hd. destruct (execute_buy_stocks symbol quantity total) as [_ Hex].
  rewrite !Hex. unfold buy_answer.
  destruct (String.eqb_spec d "yes") as [-> | _]; [done |].
  split_and!; [done | | done].
  unfold Hitl.bought_text. discriminate.
Qed.

Lemma buy_stocks_declined_unless_yes_witness :
  "Yes" ≠ "yes"
  ∧ execute (Hitl.buy_stocks "MSFT" 10 (PyFloat.literal 20030 1)) (Some "Yes")
    = Delta "Buying declined.".
Proof.
  assert ("Yes" ≠ "yes") as Hne by discriminate.
  split; [exact Hne |].
  exact (proj1 (buy_stocks_declined_unless_yes
                  "MSFT" 10 (PyFloat.literal 20030 1) "Yes" Hne)).
Defined.

(** ** Runs of the hitl graph *)

Lemma invoke_tool_get_stock_price (symbol id : string) :
  Hitl.invoke_tool
    (ToolCall "get_stock_price" {[ "symbol" := VStr symbol ]} id)
  = Done (PyFloat.repr (Hitl.get_stock_price symbol)).
Proof.
  unfold Hitl.invoke_tool, Hitl.arg_str. cbn [tc_name tc_args].
  change (String.eqb "get_stock_price" "get_stock_price") with true.
  cbv iota. by rewrite lookup_singleton_eq.
Qed.

Lemma prices_MSFT : Hitl.prices !! "MSFT" = Some (PyFloat.literal 2003 1).
Proof.
  unfold Hitl.prices.
  rewrite !lookup_insert_ne by discriminate. apply lookup_insert_eq.
Qed.

Lemma repr_200_3 : PyFloat.repr (PyFloat.literal 2003 1) = "200.3".
Proof. vm_compute. reflexivity. Qed.

(** A turn of the chatbot node that asks for tools goes on to the tools
    node; one that does not ends the run. *)
Lemma run_chatbot_tools llm n tid st
    (σ : gmap string (Controller.Checkpoint Hitl.node)) c call calls :
  llm st = Some (AIMessage c (call :: calls)) →
  Controller.run (Hitl.run_node llm) Hitl.next_node (S n) tid
                 Hitl.chatbot st [] σ
  = Controller.run (Hitl.run_node llm) Hitl.next_node n tid Hitl.tools
      (st ++ [AIMessage c (call :: calls)]) []
      (Controller.save tid
         (Controller.cp_running (st ++ [AIMessage c (call :: calls)])
                                Hitl.tools) σ).
Proof.
  intros Hllm. apply run_delta; [by apply chatbot_step |].
  cbn [Hitl.next_node]. by rewrite tools_condition_snoc.
Qed.

Lemma run_chatbot_end llm n tid st
    (σ : gmap string (Controller.Checkpoint Hitl.node)) msg :
  llm st = Some msg →
  (∀ c calls, msg = AIMessage c calls → calls = []) →
  Controller.run (Hitl.run_node llm) Hitl.next_node (S n) tid
                 Hitl.chatbot st [] σ
  = (Controller.save tid (Controller.cp_completed (st ++ [msg])) σ,
     Completed (st ++ [msg])).
Proof.
  intros Hllm Hplain. apply run_end; [by apply chatbot_step |].
  cbn [Hitl.next_node]. rewrite tools_condition_snoc.
  destruct msg as [| c [| call calls] | |]; try done.
  by specialize (Hplain _ _ eq_refl).
Qed.

(** A well-formed price lookup in the tools node. *)
Lemma run_one_get_stock_price (symbol id : string) :
  Hitl.run_one (ToolCall "get_stock_price" {[ "symbol" := VStr symbol ]} id)
  = Done (ToolMessage (PyFloat.repr (Hitl.get_stock_price symbol))
                      "get_stock_price" id).
Proof.
  unfold Hitl.run_one. by rewrite invoke_tool_get_stock_price.
Qed.

(** C4: the price of "MSFT" is the float 200.3, the value stored under
    that key in the lookup table; a price query that the model routes to
    the tool and then answers completes, and the tool message in the
    final state reports 200.3. *)
Theorem get_stock_price_MSFT
    (llm : list message → option message) (limit : nat) (tid : string)
    (question : list message) (ask id reply : string)
    (σ : gmap string (Controller.Checkpoint Hitl.node)) :
  let call := ToolCall "get_stock_price" {[ "symbol" := VStr "MSFT" ]} id in
  let told := ToolMessage "200.3" "get_stock_price" id in
  Hitl.get_stock_price "MSFT" = PyFloat.literal 2003 1
  ∧ Hitl.prices !! "MSFT" = Some (PyFloat.literal 2003 1)
  ∧ PyFloat.repr (Hitl.get_stock_price "MSFT") = "200.3"
  ∧ (Controller.load tid σ = None →
     llm question = Some (AIMessage ask [call]) →
     llm (question ++ [AIMessage ask [call]; told])
       = Some (AIMessage reply []) →
     (HitlRun.graph_invoke llm (3 + limit) tid question σ).2
     = Completed
         (question ++ [AIMessage ask [call]; told; AIMessage reply []])).
Proof.
  intros call told.
  assert (Hitl.get_stock_price "MSFT" = PyFloat.literal 2003 1) as Hprice.
  { unfold Hitl.get_stock_price. by rewrite prices_MSFT. }
  split; [exact Hprice |]. split; [exact prices_MSFT |].
  split; [rewrite Hprice; exact repr_200_3 |].
  intros Hfresh Hask Hreply.
  unfold HitlRun.graph_invoke, Controller.invoke, Controller.drive.
  rewrite Hfresh.
  change (3 + limit)%nat with (S (S (S limit))). unfold Hitl.entry_node.
  rewrite (run_chatbot_tools llm _ _ _ _ _ _ _ Hask).
  rewrite (run_delta _ _ _ _ _ _ _ _ [told] Hitl.chatbot).
  - rewrite <- (app_assoc question). cbn [app].
    rewrite (run_chatbot_end llm _ _ _ _ _ Hreply).
    + cbn [snd]. by rewrite <- (app_assoc question).
    + intros c calls Heq. by injection Heq as _ <-.
  - cbn [Hitl.run_node]. rewrite tool_node_snoc.
    cbn [Hitl.run_tool_calls]. unfold call.
    rewrite run_one_get_stock_price, Hprice, repr_200_3. done.
  - done.
Qed.

Lemma get_stock_price_MSFT_witness :
  (HitlRun.graph_invoke Script.llm 25 "buy_thread" HitlRun.ask_price ∅).2
  = Completed
      (HitlRun.ask_price
       ++ [AIMessage "" [Script.price_call];
           ToolMessage "200.3" "get_stock_price" "call_1";
           AIMessage "The current price of MSFT is $200.3 per share." []]).
Proof.
  refine (proj2 (proj2 (proj2
    (get_stock_price_MSFT Script.llm 22 "buy_thread" HitlRun.ask_price
       "" "call_1" "The current price of MSFT is $200.3 per share." ∅)))
    _ _ _).
  - apply lookup_empty.
  - reflexivity.
  - reflexivity.
Defined.

(** The purchase of the notebook, as the buy tool words it. *)
Lemma buy_answer_MSFT (d : string) :
  buy_answer "MSFT" 10 (PyFloat.literal 20030 1) d
  = if String.eqb d "yes"
    then "You bought 10 shares of MSFT for a total price of 2003.0"
    else "Buying declined.".
Proof. unfold buy_answer. by rewrite bought_text_MSFT. Qed.

(** C2, as the code has it: resuming the thread suspended at the buy of
    10 MSFT for 2003.0 appends the tool message
    "You bought 10 shares of MSFT for a total price of 2003.0" for the
    decision "yes" and "Buying declined." for any other one (such as
    "no"); the run then goes back to the chatbot node, and when the model
    replies without tool calls it completes: the last message is that
    reply, and the tool message is the one before it. *)
Theorem buy_resume_branching
    (llm : list message → option message) (limit : nat) (tid : string)
    (st : list message) (c id payload reply d : string)
    (args : gmap string value)
    (σ : gmap string (Controller.Checkpoint Hitl.node)) :
  let asked := st ++ [AIMessage c [ToolCall "buy_stocks" args id]] in
  let answer :=
    if String.eqb d "yes"
    then "You bought 10 shares of MSFT for a total price of 2003.0"
    else "Buying declined." in
  Hitl.arg_str args "symbol" = Some "MSFT" →
  Hitl.arg_int args "quantity" = Some 10 →
  Hitl.arg_float args "total_price" = Some (PyFloat.literal 20030 1) →
  Controller.load tid σ
  = Some (Controller.cp_interrupted asked Hitl.tools payload) →
  llm (asked ++ [ToolMessage answer "buy_stocks" id])
  = Some (AIMessage reply []) →
  (HitlRun.graph_resume llm (2 + limit) tid {| decision := d |} σ).2
  = Completed
      (asked ++ [ToolMessage answer "buy_stocks" id; AIMessage reply []]).
Proof.
  intros asked answer Hs Hq Ht Hload Hreply.
  unfold HitlRun.graph_resume, Controller.resume. rewrite Hload.
  cbn [Controller.status Controller.pending_step_id Controller.state
       Controller.resume_values Controller.cp_interrupted
       Controller.cp_suspended decision app].
  change (2 + limit)%nat with (S (S limit)).
  destruct (tool_node_buy st c args id _ _ _ Hs Hq Ht) as [_ Hyes].
  rewrite (run_delta _ _ _ _ _ _ _ _
             [ToolMessage answer "buy_stocks" id] Hitl.chatbot).
  - rewrite (run_chatbot_end llm _ _ _ _ _ Hreply).
    + cbn [snd]. by rewrite <- app_assoc.
    + intros c' calls Heq. by injection Heq as _ <-.
  - cbn [Hitl.run_node]. fold asked. unfold asked.
    specialize (Hyes d). unfold execute in Hyes.
    rewrite Hyes, buy_answer_MSFT. done.
  - done.
Qed.

Lemma buy_resume_branching_witness :
  let σ2 := (HitlRun.graph_invoke Script.llm 25 "buy_thread" HitlRun.ask_buy ∅).1 in
  (HitlRun.graph_resume Script.llm 25 "buy_thread" {| decision := "no" |} σ2).2
  = Completed
      ((HitlRun.ask_buy ++ [AIMessage "" [Script.buy_call]])
       ++ [ToolMessage "Buying declined." "buy_stocks" "call_2";
           AIMessage "OK. I have not bought any stocks." []]).
Proof.
  destruct buy_call_args as (Hs & Hq & Ht).
  refine (buy_resume_branching Script.llm 23 "buy_thread" HitlRun.ask_buy
            "" "call_2" "Approve buying 10 MSFT stocks for $2003.00?"
            "OK. I have not bought any stocks." "no" _ _ Hs Hq Ht _ _).
  - vm_compute. reflexivity.
  - reflexivity.
Defined.

(** C2, as stated, fails on the notebook: after the resume with "yes"
    the tools node hands over to the chatbot node, so the last message
    of the completed run is the model's reply, not the text returned by
    [buy_stocks]. *)
Lemma buy_thread_last_message_counterexample :
  ∃ final,
    (HitlRun.notebook Script.llm 25 "yes").2
    = (Completed
         (HitlRun.ask_price
          ++ [AIMessage "" [Script.price_call];
              ToolMessage "200.3" "get_stock_price" "call_1";
              AIMessage "The current price of MSFT is $200.3 per share." []]),
       Suspended "Approve buying 10 MSFT stocks for $2003.00?",
       Completed final)
    ∧ last final = Some (AIMessage "OK. I have bought 10 shares of MSFT." [])
    ∧ content <$> last final
      ≠ Some "You bought 10 shares of MSFT for a total price of 2003.0".
Proof.
  eexists. split; [vm_compute; reflexivity |].
  split; [reflexivity | discriminate].
Qed.

(** ** Multi-turn conversations *)

Section Completed.
Context {step_id : Type}.
Variable entry : step_id.
Variable run_step : step_id → list message → Step (list message).
Variable next_step : step_id → list message → option step_id.

(** A run that completes leaves a COMPLETED checkpoint holding the final
    state, which extends the state the run started on. *)
Lemma run_completed limit :
  ∀ tid sid st ds (σ σ' : gmap string (Controller.Checkpoint step_id)) final,
    Controller.run run_step next_step limit tid sid st ds σ
    = (σ', Completed final) →
    σ' !! tid = Some (Controller.cp_completed final)
    ∧ st `prefix_of` final.
Proof.
  induction limit as [| n IH]; intros tid sid st ds σ σ' final Hrun;
    [discriminate Hrun |].
  cbn [Controller.run] in Hrun.
  destruct (replay (run_step sid st) ds) as [d | payload | e];
    [| discriminate Hrun | discriminate Hrun].
  destruct (next_step sid (st ++ d)) as [sid' |].
  - apply IH in Hrun as [Hcp Hpre]. split; [done |].
    etrans; [by apply prefix_app_r | exact Hpre].
  - injection Hrun as <- <-. split; [apply lookup_insert_eq |].
    by apply prefix_app_r.
Qed.

Lemma invoke_completed limit tid new_input
    (σ σ' : gmap string (Controller.Checkpoint step_id)) final :
  Controller.invoke entry run_step next_step limit tid new_input σ
  = (σ', Completed final) →
  Controller.load tid σ' = Some (Controller.cp_completed final).
Proof.
  unfold Controller.invoke, Controller.load, Controller.drive.
  destruct (σ !! tid) as [cp |]; intros Hrun;
    by apply run_completed in Hrun as [? _].
Qed.
End Completed.

(** One [graph.invoke] of the chatbot graph that completes has appended
    the model's reply to the whole state it was given. *)
Lemma chatbot_graph_invoke llm limit st final :
  Chatbot.graph_invoke llm limit st = Completed final →
  ∃ reply, llm st = Some reply ∧ final = st ++ [reply].
Proof.
  unfold Chatbot.graph_invoke, Controller.invoke, Controller.load,
    Controller.drive.
  rewrite lookup_empty. destruct limit as [| n]; [discriminate |].
  cbn [Controller.run]. unfold Chatbot.chatbot.
  destruct (llm st) as [reply |]; [| discriminate].
  cbn [execute mret step_ret snd]. intros Heq. injection Heq as <-.
  by exists reply.
Qed.

Lemma chat_loop_grows llm limit inputs :
  ∀ state out fin,
    Chatbot.chat_loop llm limit inputs state = (out, fin, Chatbot.EndOfInput) →
    let s := from_option id [] state in
    let f := from_option id [] fin in
    length f = (length s + 2 * length inputs)%nat
    ∧ s `prefix_of` f
    ∧ ∀ (i : nat) x, inputs !! i = Some x →
        f !! (length s + 2 * i)%nat = Some (HumanMessage x)
        ∧ ∃ reply,
            f !! (length s + 2 * i + 1)%nat = Some reply
            ∧ llm (take (length s + 2 * i + 1) f) = Some reply
            ∧ out !! i = Some ("Bot: " +:+ content reply).
Proof.
  induction inputs as [| x rest IH]; intros state out fin Hloop s f.
  { cbn in Hloop. injection Hloop as <- <-. subst s f.
    split_and!; [cbn; lia | done |]. intros i y Hi. done. }
  cbn [Chatbot.chat_loop] in Hloop.
  destruct (Chatbot.is_exit x); [discriminate Hloop |].
  set (st := match state with
             | Some s0 => s0 ++ [HumanMessage x]
             | None => [HumanMessage x]
             end) in Hloop.
  assert (st = s ++ [HumanMessage x]) as Hst by (subst st s; by destruct state).
  destruct (Chatbot.graph_invoke llm limit st) as [st' | |] eqn:Hinv;
    [| discriminate Hloop | discriminate Hloop].
  apply chatbot_graph_invoke in Hinv as (reply & Hreply & ->).
  destruct (Chatbot.chat_loop llm limit rest (Some (st ++ [reply])))
    as [[out' fin'] why] eqn:Hrest.
  rewrite last_snoc in Hloop. cbn [from_option] in Hloop.
  injection Hloop as <- <- ->.
  apply IH in Hrest as (Hlen & Hpre & Hturns).
  cbn [from_option id] in Hlen, Hpre, Hturns. fold f in Hlen, Hpre, Hturns.
  rewrite Hst in Hlen, Hpre, Hturns, Hreply.
  rewrite <- app_assoc in Hlen, Hpre, Hturns. cbn [app] in Hlen, Hpre, Hturns.
  rewrite length_app in Hlen, Hturns. cbn [length] in Hlen, Hturns.
  split_and!.
  - cbn [length]. lia.
  - etrans; [by apply prefix_app_r | exact Hpre].
  - destruct Hpre as [tl Hf]. rewrite <- app_assoc in Hf. cbn [app] in Hf.
    intros [| i] y Hi.
    + cbn in Hi. injection Hi as <-.
      replace (length s + 2 * 0)%nat with (length s) by lia.
      rewrite Hf. split; [by rewrite list_lookup_middle |].
      exists reply.
      rewrite (cons_middle (HumanMessage x) s (reply :: tl)), app_assoc.
      assert (length (s ++ [HumanMessage x]) = (length s + 1)%nat) as Hl
        by (rewrite length_app; cbn; lia).
      split_and!; [by rewrite list_lookup_middle | | done].
      by rewrite take_app_length'.
    + cbn in Hi. destruct (Hturns i y Hi) as (Hhuman & r & Hr & Hllm & Hout).
      replace (length s + 2 * S i)%nat with (length s + 2 + 2 * i)%nat by lia.
      split; [done |]. exists r. split_and!; done.
Qed.

(** C6: in the run controller, an [invoke] on a thread whose previous
    run completed starts a new step cycle at the entry step, on the
    final state of that run with the new input appended.  In the chat loop
    of chatbot.ipynb (run to the end of its input), the state after the
    turns holds, for each turn i, the user's line at position 2i and the
    reply at 2i+1, and that reply is the model's answer to everything
    before it: all the earlier exchanges and the new line. *)
Theorem multi_turn_accumulation :
  (∀ (step_id : Type) (entry : step_id)
     (run_step : step_id → list message → Step (list message))
     (next_step : step_id → list message → option step_id)
     (limit limit' : nat) (tid : string) (input1 input2 : list message)
     (σ σ1 : gmap string (Controller.Checkpoint step_id)) (final : list message),
     Controller.invoke entry run_step next_step limit tid input1 σ
     = (σ1, Completed final) →
     Controller.thread_status tid σ1 = Some COMPLETED
     ∧ Controller.invoke entry run_step next_step limit' tid input2 σ1
       = Controller.drive run_step next_step limit' tid entry
           (final ++ input2) None
           (Controller.save tid
              (Controller.cp_running (final ++ input2) entry) σ1))
  ∧ (∀ (llm : list message → option message) (limit : nat)
       (inputs out : list string) (fin : option (list message)),
       Chatbot.chat_loop llm limit inputs None
       = (out, fin, Chatbot.EndOfInput) →
       let f := from_option id [] fin in
       length f = (2 * length inputs)%nat
       ∧ ∀ (i : nat) (x : string), inputs !! i = Some x →
           f !! (2 * i)%nat = Some (HumanMessage x)
           ∧ ∃ reply,
               f !! (2 * i + 1)%nat = Some reply
               ∧ llm (take (2 * i + 1) f) = Some reply
               ∧ out !! i = Some ("Bot: " +:+ content reply)).
Proof.
  split.
  - intros step_id entry run_step next_step limit limit' tid input1 input2
           σ σ1 final Hrun.
    apply invoke_completed in Hrun.
    unfold Controller.thread_status. rewrite Hrun. split; [done |].
    unfold Controller.invoke. by rewrite Hrun.
  - intros llm limit inputs out fin Hloop f.
    destruct (chat_loop_grows llm limit inputs None out fin Hloop)
      as (Hlen & _ & Hturns).
    split; [exact Hlen |]. intros i x Hi. exact (Hturns i x Hi).
Qed.

Lemma multi_turn_accumulation_witness :
  (let σ1 := (HitlRun.graph_invoke Script.llm 25 "buy_thread"
                                   HitlRun.ask_price ∅).1 in
   Controller.thread_status "buy_thread" σ1 = Some COMPLETED)
  ∧ Chatbot.chat_loop Script.llm 25 ["hello"; "and again"] None
    = (["Bot: You said: hello"; "Bot: You said: and again"],
       Some [HumanMessage "hello"; AIMessage "You said: hello" [];
             HumanMessage "and again"; AIMessage "You said: and again" []],
       Chatbot.EndOfInput)
  ∧ Script.llm [HumanMessage "hello"; AIMessage "You said: hello" [];
                HumanMessage "and again"]
    = Some (AIMessage "You said: and again" []).
Proof.
  assert (Chatbot.chat_loop Script.llm 25 ["hello"; "and again"] None
          = (["Bot: You said: hello"; "Bot: You said: and again"],
             Some [HumanMessage "hello"; AIMessage "You said: hello" [];
                   HumanMessage "and again"; AIMessage "You said: and again" []],
             Chatbot.EndOfInput)) as Hloop by (vm_compute; reflexivity).
  split_and!; [| exact Hloop |].
  - refine (proj1 (proj1 multi_turn_accumulation Hitl.node Hitl.entry_node
                     (Hitl.run_node Script.llm) Hitl.next_node 25%nat 25%nat
                     "buy_thread" HitlRun.ask_price HitlRun.ask_buy ∅ _ _ _)).
    vm_compute. reflexivity.
  - destruct (proj2 (proj2 multi_turn_accumulation Script.llm 25%nat _ _ _ Hloop)
                1%nat "and again" eq_refl)
      as (_ & reply & Hreply & Hllm & _).
    cbn in Hreply. injection Hreply as <-. exact Hllm.
Defined.

(** ** The notebook run as an instance *)

Lemma resume_rejected_witness :
  let σ1 := (HitlRun.graph_invoke Script.llm 25 "buy_thread"
                                  HitlRun.ask_price ∅).1 in
  Controller.thread_status "buy_thread" σ1 ≠ Some INTERRUPTED
  ∧ HitlRun.graph_resume Script.llm 25 "buy_thread" {| decision := "yes" |} σ1
    = (σ1, Error NoPendingInterrupt).
Proof.
  intros σ1.
  assert (Controller.thread_status "buy_thread" σ1 ≠ Some INTERRUPTED) as Hst.
  { vm_compute. discriminate. }
  split; [exact Hst |].
  exact (resume_rejected (Hitl.run_node Script.llm) Hitl.next_node 25%nat
                         "buy_thread" {| decision := "yes" |} σ1 Hst).
Defined.

Lemma state_append_only_witness :
  let σ1 := (HitlRun.graph_invoke Script.llm 25 "buy_thread"
                                  HitlRun.ask_price ∅).1 in
  ∃ cp, σ1 !! "buy_thread" = Some cp
        ∧ ∃ cp', (HitlRun.graph_invoke Script.llm 25 "buy_thread"
                                       HitlRun.ask_buy σ1).1
                 !! "buy_thread" = Some cp'
                 ∧ Controller.state cp `prefix_of` Controller.state cp'.
Proof.
  intros σ1.
  assert (∃ cp, σ1 !! "buy_thread" = Some cp) as [cp Hcp].
  { eexists. vm_compute. reflexivity. }
  exists cp. split; [exact Hcp |].
  destruct (proj1 (state_append_only Hitl.entry_node
                     (Hitl.run_node Script.llm) Hitl.next_node 25%nat
                     "buy_thread" HitlRun.ask_buy {| decision := "yes" |}
                     σ1 "buy_thread" cp Hcp))
    as (cp' & Hcp' & Hle & _).
  exists cp'. split; [exact Hcp' | exact Hle].
Defined.

Lemma resume_correct_witness :
  let σ1 := (HitlRun.graph_invoke Script.llm_two 25 "buy_thread"
                                  Script.ask_two ∅).1 in
  let σ2 := (HitlRun.graph_resume Script.llm_two 25 "buy_thread"
                                  {| decision := "yes" |} σ1).1 in
  HitlRun.graph_invoke Script.llm_two 25 "buy_thread" Script.ask_two ∅
  = (σ1, Suspended "Approve buying 10 MSFT stocks for $2003.00?")
  ∧ HitlRun.graph_resume Script.llm_two 25 "buy_thread"
                         {| decision := "yes" |} σ1
    = (σ2, Suspended "Approve buying 2 AAPL stocks for $200.80?")
  ∧ (HitlRun.graph_resume Script.llm_two 25 "buy_thread"
                          {| decision := "no" |} σ2).2
    = Completed
        (Script.ask_two
         ++ [AIMessage "" [Script.buy_call; Script.aapl_call];
             ToolMessage
               "You bought 10 shares of MSFT for a total price of 2003.0"
               "buy_stocks" "call_2";
             ToolMessage "Buying declined." "buy_stocks" "call_3";
             AIMessage "OK. Both orders are handled." []])
  ∧ ∃ k : nat,
      ∀ m : nat,
        HitlRun.graph_resume Script.llm_two m "buy_thread"
                             {| decision := "no" |} σ2
        = Controller.invoke_direct Hitl.entry_node
            (Hitl.run_node Script.llm_two) Hitl.next_node (k + m)
            "buy_thread" Script.ask_two (["yes"] ++ ["no"]) ∅.
Proof.
  intros σ1 σ2.
  assert (HitlRun.graph_invoke Script.llm_two 25 "buy_thread" Script.ask_two ∅
          = (σ1, Suspended "Approve buying 10 MSFT stocks for $2003.00?"))
    as Hinvoke by (vm_compute; reflexivity).
  assert (HitlRun.graph_resume Script.llm_two 25 "buy_thread"
                               {| decision := "yes" |} σ1
          = (σ2, Suspended "Approve buying 2 AAPL stocks for $200.80?"))
    as Hresume by (vm_compute; reflexivity).
  split_and!; [exact Hinvoke | exact Hresume | vm_compute; reflexivity |].
  destruct (resume_correct Hitl.entry_node (Hitl.run_node Script.llm_two)
              Hitl.next_node ∅ σ2 "buy_thread" Script.ask_two
              ([] ++ ["yes"]) _
              (Controller.suspended_by_resume _ _ _ _ _ _ _ _ _ _ _ _ _
                 (Controller.suspended_by_invoke _ _ _ _ _ _ _ _ _ Hinvoke)
                 Hresume))
    as (k & pending & st & answered & _ & _ & Hres).
  exists k. intros m. exact (proj2 (proj2 (Hres m "no"))).
Defined.

(** * Further properties of the notebooks *)

(** ** The price table *)

Lemma get_stock_price_table :
  Hitl.get_stock_price "MSFT" = PyFloat.literal 2003 1
  ∧ Hitl.get_stock_price "AAPL" = PyFloat.literal 1004 1
  ∧ Hitl.get_stock_price "AMZN" = PyFloat.literal 1500 1
  ∧ Hitl.get_stock_price "RIL" = PyFloat.literal 876 1.
Proof.
  unfold Hitl.get_stock_price, Hitl.prices. split_and!.
  - rewrite !lookup_insert_ne by discriminate. by rewrite lookup_insert_eq.
  - rewrite !lookup_insert_ne by discriminate. by rewrite lookup_insert_eq.
  - rewrite !lookup_insert_ne by discriminate. by rewrite lookup_insert_eq.
  - by rewrite lookup_insert_eq.
Qed.

(** The price 0.0 is returned for the symbols outside the table and for
    no symbol of the table: a zero price tells the caller that the symbol
    is unknown.  The keys are compared as written, so "msft" is unknown. *)
Theorem get_stock_price_zero_iff_unknown (symbol : string) :
  Hitl.get_stock_price symbol = PyFloat.literal 0 1
  ↔ symbol ∉ ["MSFT"; "AAPL"; "AMZN"; "RIL"].
Proof.
  split.
  - intros Hzero Hin.
    destruct get_stock_price_table as (H1 & H2 & H3 & H4).
    repeat (apply elem_of_cons in Hin as [Heq | Hin];
            [subst symbol;
             rewrite ?H1, ?H2, ?H3, ?H4 in Hzero; vm_compute in Hzero;
             discriminate Hzero |]).
    by apply elem_of_nil in Hin.
  - intros Hnot. unfold Hitl.get_stock_price. by rewrite prices_lookup_None.
Qed.

(** Whatever the symbol, the price is one of the five floats written in
    the function: a finite binary64, not negative, never a NaN. *)
Theorem get_stock_price_range (symbol : string) :
  Hitl.get_stock_price symbol
  ∈ [PyFloat.literal 2003 1; PyFloat.literal 1004 1; PyFloat.literal 1500 1;
     PyFloat.literal 876 1; PyFloat.literal 0 1]
  ∧ valid_binary PyFloat.prec PyFloat.emax (Hitl.get_stock_price symbol) = true
  ∧ SFleb (S754_zero false) (Hitl.get_stock_price symbol) = true
  ∧ SFleb (Hitl.get_stock_price symbol) (PyFloat.literal 2003 1) = true.
Proof.
  destruct get_stock_price_table as (H1 & H2 & H3 & H4).
  destruct (decide (symbol ∈ ["MSFT"; "AAPL"; "AMZN"; "RIL"])) as [Hin | Hnot].
  - repeat (apply elem_of_cons in Hin as [Heq | Hin];
            [subst symbol; rewrite ?H1, ?H2, ?H3, ?H4;
             split; [set_solver | by vm_compute] |]).
    by apply elem_of_nil in Hin.
  - unfold Hitl.get_stock_price. rewrite (prices_lookup_None _ Hnot).
    cbn [default]. split; [set_solver | by vm_compute].
Qed.

(** ** What the tools node can and cannot do *)

(** The conversions on what a model may send for [quantity] and
    [total_price]: ['10'] and [10.0] are the integer 10, [10.5] is no
    integer, ['2003.0'] and [2003] are the float [2003.0]. *)
Lemma argument_conversions :
  Hitl.arg_int {[ "quantity" := VStr "10" ]} "quantity" = Some 10
  ∧ Hitl.arg_int {[ "quantity" := VFloat (PyFloat.literal 100 1) ]} "quantity"
    = Some 10
  ∧ Hitl.arg_int {[ "quantity" := VFloat (PyFloat.literal 105 1) ]} "quantity"
    = None
  ∧ Hitl.arg_float {[ "total_price" := VStr "2003.0" ]} "total_price"
    = Some (PyFloat.literal 20030 1)
  ∧ Hitl.arg_float {[ "total_price" := VInt 2003 ]} "total_price"
    = Some (PyFloat.literal 20030 1).
Proof. vm_compute. done. Qed.

(** A purchase whose numbers come as strings is put to the user like any
    other. *)
Lemma tool_node_converted_call :
  replay (Hitl.tool_node
            [AIMessage ""
               [ToolCall "buy_stocks"
                  (<["total_price" := VStr "2003.0"]>
                    (<["quantity" := VStr "10"]> {[ "symbol" := VStr "MSFT" ]}))
                  "call_2"]]) []
  = Interrupted "Approve buying 10 MSFT stocks for $2003.00?".
Proof. vm_compute. reflexivity. Qed.

(** A purchase of 10.5 shares does not fit the signature: nothing is
    asked, and the tools node finishes with an error message named after
    the call. *)
Lemma tool_node_invalid_call :
  ∃ text,
    replay (Hitl.tool_node
              [AIMessage ""
                 [ToolCall "buy_stocks"
                    (<["total_price" := VFloat (PyFloat.literal 20030 1)]>
                      (<["quantity" := VFloat (PyFloat.literal 105 1)]>
                        {[ "symbol" := VStr "MSFT" ]}))
                    "call_2"]]) []
    = Delta [ToolErrorMessage text "buy_stocks" "call_2"].
Proof. eexists. vm_compute. reflexivity. Qed.

(** A tool call is a price lookup that finishes at once, a well-formed
    purchase, or a failure. *)
Lemma invoke_tool_cases (c : tool_call) :
  (tc_name c = "get_stock_price" ∧ ∃ r, Hitl.invoke_tool c = Done r)
  ∨ (tc_name c = "buy_stocks"
     ∧ ∃ symbol quantity total,
         Hitl.arg_str (tc_args c) "symbol" = Some symbol
         ∧ Hitl.arg_int (tc_args c) "quantity" = Some quantity
         ∧ Hitl.arg_float (tc_args c) "total_price" = Some total
         ∧ Hitl.invoke_tool c = Hitl.buy_stocks symbol quantity total)
  ∨ Hitl.invoke_tool c = Raise UpstreamFailure.
Proof.
  unfold Hitl.invoke_tool.
  destruct (String.eqb_spec (tc_name c) "get_stock_price") as [Hn | _].
  { destruct (Hitl.arg_str (tc_args c) "symbol"); eauto. }
  destruct (String.eqb_spec (tc_name c) "buy_stocks") as [Hn | _]; [| eauto].
  destruct (Hitl.arg_str (tc_args c) "symbol") as [symbol |]; [| eauto].
  destruct (Hitl.arg_int (tc_args c) "quantity") as [quantity |]; [| eauto].
  destruct (Hitl.arg_float (tc_args c) "total_price") as [total |]; [| eauto].
  right. left. split; [done |]. by exists symbol, quantity, total.
Qed.

(** In the tools node a tool call gives at once a message that answers
    it and is no purchase (a price, or the error message of a failed
    call), or it is a well-formed purchase, which first asks. *)
Lemma run_one_cases (c : tool_call) :
  (∃ m, Hitl.run_one c = Done m ∧ is_purchase m = false ∧ answers_call m c)
  ∨ (tc_name c = "buy_stocks"
     ∧ ∃ symbol quantity total,
         Hitl.arg_str (tc_args c) "symbol" = Some symbol
         ∧ ∀ ds,
             replay_rest (Hitl.run_one c) ds
             = match ds with
               | [] =>
                 (Interrupted (Hitl.approve_prompt symbol quantity total), [])
               | d :: rest =>
                 (Delta (ToolMessage (buy_answer symbol quantity total d)
                                     (tc_name c) (tc_id c)), rest)
               end).
Proof.
  destruct (invoke_tool_cases c)
    as [(Hname & r & Hr) | [(Hname & symbol & q & t & Hs & Hq & Ht & _) | Hr]].
  - left. exists (ToolMessage r (tc_name c) (tc_id c)).
    unfold Hitl.run_one. rewrite Hr. split_and!; [done | | done].
    cbn [is_purchase]. by rewrite Hname.
  - right. split; [done |]. exists symbol, q, t. split; [done |].
    intros ds. destruct c as [name args id]. cbn [tc_name tc_args tc_id] in *.
    subst name. apply (run_one_buy _ _ _ _ _ _ Hs Hq Ht).
  - left.
    exists (ToolErrorMessage (Hitl.tool_error_text c) (tc_name c) (tc_id c)).
    unfold Hitl.run_one. by rewrite Hr.
Qed.

Lemma run_tool_calls_first_run (calls : list tool_call) :
  ∀ msgs, replay (Hitl.run_tool_calls calls) [] = Delta msgs →
          Forall (λ m, is_purchase m = false) msgs
          ∧ Forall2 answers_call msgs calls.
Proof.
  induction calls as [| c cs IH]; intros msgs Hex.
  { cbn in Hex. injection Hex as <-. by split. }
  rewrite replay_run_tool_calls_cons in Hex.
  destruct (run_one_cases c)
    as [(m & Hm & Hno & Hans) | (_ & symbol & q & t & _ & Hbuy)].
  - rewrite Hm in Hex. cbn [replay_rest] in Hex.
    destruct (replay (Hitl.run_tool_calls cs) []) as [rest | |];
      [| discriminate Hex | discriminate Hex].
    injection Hex as <-. destruct (IH rest eq_refl) as [Hrest Hall].
    split; by constructor.
  - rewrite (Hbuy []) in Hex. discriminate Hex.
Qed.

Lemma tool_node_first_run (st msgs : list message) :
  replay (Hitl.tool_node st) [] = Delta msgs →
  Forall (λ m, is_purchase m = false) msgs.
Proof.
  unfold Hitl.tool_node.
  destruct (last st) as [[| c calls | |] |]; try discriminate.
  intros Hex. by apply (run_tool_calls_first_run calls msgs).
Qed.

(** No purchase without a decision: when a first execution of the tools
    node (one that is not the re-execution of a resume) finishes, the
    last message was an assistant message, every one of its tool calls
    is answered, in order, by a tool message of its name and id, and
    none of these is the result of a [buy_stocks] call that ran to its
    end: a well-formed purchase stops at its [interrupt] call, and a call
    that fails gets an error message. *)
Theorem no_purchase_without_decision (st msgs : list message) :
  execute (Hitl.tool_node st) None = Delta msgs →
  Forall (λ m, is_purchase m = false) msgs
  ∧ ∃ c calls, last st = Some (AIMessage c calls)
               ∧ Forall2 answers_call msgs calls.
Proof.
  unfold execute, Hitl.tool_node.
  destruct (last st) as [[| c calls | |] |]; try discriminate.
  intros Hex. destruct (run_tool_calls_first_run calls msgs Hex) as [Hno Hall].
  split; [exact Hno |]. by exists c, calls.
Qed.

Lemma no_purchase_without_decision_witness :
  execute (Hitl.tool_node
             [HumanMessage "price?";
              AIMessage "" [Script.price_call;
                            ToolCall "sell_stocks" ∅ "call_9"]]) None
  = Delta [ToolMessage "200.3" "get_stock_price" "call_1";
           ToolErrorMessage
             "Error: sell_stocks is not a valid tool, try one of [get_stock_price, buy_stocks]."
             "sell_stocks" "call_9"]
  ∧ Forall (λ m, is_purchase m = false)
           [ToolMessage "200.3" "get_stock_price" "call_1";
            ToolErrorMessage
              "Error: sell_stocks is not a valid tool, try one of [get_stock_price, buy_stocks]."
              "sell_stocks" "call_9"].
Proof.
  assert (execute (Hitl.tool_node
                     [HumanMessage "price?";
                      AIMessage "" [Script.price_call;
                                    ToolCall "sell_stocks" ∅ "call_9"]]) None
          = Delta [ToolMessage "200.3" "get_stock_price" "call_1";
                   ToolErrorMessage
                     "Error: sell_stocks is not a valid tool, try one of [get_stock_price, buy_stocks]."
                     "sell_stocks" "call_9"]) as Hex
    by (vm_compute; reflexivity).
  split; [exact Hex |].
  exact (proj1 (no_purchase_without_decision _ _ Hex)).
Defined.




(** ** Where a run of the hitl graph can end *)

Lemma run_completed_reply llm limit :
  ∀ tid sid st ds (σ σ' : gmap string (Controller.Checkpoint Hitl.node)) final,
    Controller.run (Hitl.run_node llm) Hitl.next_node limit tid sid st ds σ
    = (σ', Completed final) →
    ∃ before reply,
      final = before ++ [reply]
      ∧ llm before = Some reply
      ∧ st `prefix_of` before
      ∧ Hitl.tools_condition final = None.
Proof.
  induction limit as [| n IH]; intros tid sid st ds σ σ' final Hrun;
    [discriminate Hrun |].
  cbn [Controller.run] in Hrun.
  destruct (replay (Hitl.run_node llm sid st) ds) as [d | |] eqn:Hex;
    [| discriminate Hrun | discriminate Hrun].
  destruct (Hitl.next_node sid (st ++ d)) as [sid' |] eqn:Hnext.
  - apply IH in Hrun as (before & reply & -> & Hllm & Hpre & Hend).
    exists before, reply. split_and!; try done.
    etrans; [by apply prefix_app_r | exact Hpre].
  - injection Hrun as <- <-.
    destruct sid; cbn [Hitl.next_node] in Hnext; [| discriminate Hnext].
    cbn [Hitl.run_node] in Hex. unfold Hitl.chatbot_node in Hex.
    destruct (llm st) as [reply |] eqn:Hllm; [| discriminate Hex].
    assert (d = [reply]) as -> by by injection Hex.
    by exists st, reply.
Qed.

(** Every completed call on the graph, [invoke] or [resume], ends on the
    chatbot node: the last message of the final state is the model's reply
    to all the messages before it, and it asks for no tool call.  After a
    tool (also the buy tool) the run always goes back to the model, so
    what the notebook prints as [state["messages"][-1].content] is never
    the text of a tool. *)
Theorem completed_run_ends_with_reply
    (llm : list message → option message) (limit : nat) (tid : string)
    (new_input : list message) (cmd : ResumeCommand)
    (σ σ' : gmap string (Controller.Checkpoint Hitl.node))
    (final : list message) :
  HitlRun.graph_invoke llm limit tid new_input σ = (σ', Completed final)
  ∨ HitlRun.graph_resume llm limit tid cmd σ = (σ', Completed final) →
  ∃ before reply,
    final = before ++ [reply]
    ∧ llm before = Some reply
    ∧ Hitl.tools_condition final = None.
Proof.
  intros [Hrun | Hrun].
  - unfold HitlRun.graph_invoke, Controller.invoke, Controller.drive in Hrun.
    destruct (Controller.load tid σ) as [cp |];
      apply run_completed_reply in Hrun
        as (before & reply & -> & Hllm & _ & Hend);
      exists before, reply; split_and!; auto.
  - unfold HitlRun.graph_resume, Controller.resume in Hrun.
    destruct (Controller.load tid σ) as [cp |]; [| discriminate Hrun].
    destruct (Controller.status cp); try discriminate Hrun.
    destruct (Controller.pending_step_id cp) as [sid |];
      [| discriminate Hrun].
    apply run_completed_reply in Hrun
      as (before & reply & -> & Hllm & _ & Hend).
    exists before, reply. split_and!; auto.
Qed.

Lemma completed_run_ends_with_reply_witness :
  let σ2 := (HitlRun.graph_invoke Script.llm 25 "buy_thread"
                                  HitlRun.ask_buy ∅).1 in
  ∃ σ3 final,
    HitlRun.graph_resume Script.llm 25 "buy_thread" {| decision := "yes" |} σ2
    = (σ3, Completed final)
    ∧ ∃ before reply, final = before ++ [reply]
                      ∧ Script.llm before = Some reply.
Proof.
  intros σ2.
  destruct (HitlRun.graph_resume Script.llm 25 "buy_thread"
              {| decision := "yes" |} σ2) as [σ3 r] eqn:Hrun.
  assert (∃ final, r = Completed final) as [final ->].
  { assert (r = (HitlRun.graph_resume Script.llm 25 "buy_thread"
                   {| decision := "yes" |} σ2).2) as -> by by rewrite Hrun.
    eexists. vm_compute. reflexivity. }
  exists σ3, final. split; [reflexivity |].
  destruct (completed_run_ends_with_reply Script.llm 25%nat "buy_thread" []
              {| decision := "yes" |} σ2 σ3 final (or_intror Hrun))
    as (before & reply & Hfinal & Hllm & _).
  by exists before, reply.
Defined.

(** ** The exit words of the chat loop *)

Lemma ascii_lower_inv (c : ascii) :
  (Chatbot.ascii_lower c = "q"%char → c = "q"%char ∨ c = "Q"%char)
  ∧ (Chatbot.ascii_lower c = "u"%char → c = "u"%char ∨ c = "U"%char)
  ∧ (Chatbot.ascii_lower c = "i"%char → c = "i"%char ∨ c = "I"%char)
  ∧ (Chatbot.ascii_lower c = "t"%char → c = "t"%char ∨ c = "T"%char)
  ∧ (Chatbot.ascii_lower c = "e"%char → c = "e"%char ∨ c = "E"%char)
  ∧ (Chatbot.ascii_lower c = "x"%char → c = "x"%char ∨ c = "X"%char).
Proof.
  destruct c as [[] [] [] [] [] [] [] []]; vm_compute;
    split_and!; intros H; first [discriminate H | by left | by right].
Qed.

Lemma lower_four (s : string) (l1 l2 l3 l4 : ascii) :
  Chatbot.lower s = String l1 (String l2 (String l3 (String l4 EmptyString))) →
  ∃ c1 c2 c3 c4,
    s = String c1 (String c2 (String c3 (String c4 EmptyString)))
    ∧ Chatbot.ascii_lower c1 = l1 ∧ Chatbot.ascii_lower c2 = l2
    ∧ Chatbot.ascii_lower c3 = l3 ∧ Chatbot.ascii_lower c4 = l4.
Proof.
  destruct s as [| c1 [| c2 [| c3 [| c4 [| c5 s']]]]];
    cbn [Chatbot.lower]; intros H; try discriminate H.
  injection H as H1 H2 H3 H4. by exists c1, c2, c3, c4.
Qed.

(** The loop is left by exactly the lines that spell "quit" or "exit" in
    any mix of upper and lower case: four characters, nothing before or
    after them.  An empty line, or one with a space around the word, is
    sent to the model like any other message. *)
Theorem is_exit_iff (in_message : string) :
  Chatbot.is_exit in_message = true
  ↔ ∃ c1 c2 c3 c4 : ascii,
      in_message = String c1 (String c2 (String c3 (String c4 EmptyString)))
      ∧ (((c1 = "q" ∨ c1 = "Q") ∧ (c2 = "u" ∨ c2 = "U")
          ∧ (c3 = "i" ∨ c3 = "I") ∧ (c4 = "t" ∨ c4 = "T"))
         ∨ ((c1 = "e" ∨ c1 = "E") ∧ (c2 = "x" ∨ c2 = "X")
            ∧ (c3 = "i" ∨ c3 = "I") ∧ (c4 = "t" ∨ c4 = "T")))%char.
Proof.
  unfold Chatbot.is_exit. rewrite orb_true_iff, !String.eqb_eq. split.
  - intros [H | H]; apply lower_four in H
      as (c1 & c2 & c3 & c4 & -> & H1 & H2 & H3 & H4);
      exists c1, c2, c3, c4; (split; [done |]).
    + left. split_and!.
      * by apply (ascii_lower_inv c1).
      * by apply (ascii_lower_inv c2).
      * by apply (ascii_lower_inv c3).
      * by apply (ascii_lower_inv c4).
    + right. split_and!.
      * by apply (ascii_lower_inv c1).
      * by apply (ascii_lower_inv c2).
      * by apply (ascii_lower_inv c3).
      * by apply (ascii_lower_inv c4).
  - intros (c1 & c2 & c3 & c4 & -> & [(H1 & H2 & H3 & H4) | (H1 & H2 & H3 & H4)]).
    + left. destruct H1 as [-> | ->], H2 as [-> | ->], H3 as [-> | ->],
        H4 as [-> | ->]; reflexivity.
    + right. destruct H1 as [-> | ->], H2 as [-> | ->], H3 as [-> | ->],
        H4 as [-> | ->]; reflexivity.
Qed.

(** ** The chat loop, turn after turn *)

Section ChatLoop.
Variable llm : list message → option message.
Variable limit : nat.

Abbreviation chat_loop := (Chatbot.chat_loop llm limit).

Lemma chat_loop_continues (xs ys : list string) :
  ∀ state out1 fin1,
    chat_loop xs state = (out1, fin1, Chatbot.EndOfInput) →
    chat_loop (xs ++ ys) state
    = (out1 ++ (chat_loop ys fin1).1.1,
       (chat_loop ys fin1).1.2,
       (chat_loop ys fin1).2).
Proof.
  induction xs as [| x xs IH]; intros state out1 fin1 Hloop.
  { cbn in Hloop. injection Hloop as <- <-. cbn [app].
    by destruct (chat_loop ys state) as [[? ?] ?]. }
  cbn [app Chatbot.chat_loop] in *.
  destruct (Chatbot.is_exit x); [discriminate Hloop |].
  destruct (Chatbot.graph_invoke llm limit _) as [st' | |];
    [| discriminate Hloop | discriminate Hloop].
  destruct (Chatbot.chat_loop llm limit xs (Some st'))
    as [[out' fin'] why] eqn:Hrest.
  injection Hloop as <- <- ->.
  by rewrite (IH _ _ _ Hrest).
Qed.

(** The loop on a longer input goes on from where the loop on its first
    part stopped for lack of input: same prints so far, same state. *)
Theorem chat_loop_app (xs ys : list string)
    (state fin1 : option (list message)) (out1 : list string) :
  chat_loop xs state = (out1, fin1, Chatbot.EndOfInput) →
  chat_loop (xs ++ ys) state
  = (out1 ++ (chat_loop ys fin1).1.1,
     (chat_loop ys fin1).1.2,
     (chat_loop ys fin1).2).
Proof. apply chat_loop_continues. Qed.

(** An exit word ends the loop at once: it is not added to the state,
    nothing is printed for it, the model is not called, and the lines
    typed after it are never read. *)
Theorem chat_loop_stops_at_exit (xs rest : list string) (q : string)
    (state fin : option (list message)) (out : list string) :
  Chatbot.is_exit q = true →
  chat_loop xs state = (out, fin, Chatbot.EndOfInput) →
  chat_loop (xs ++ q :: rest) state = (out, fin, Chatbot.Break).
Proof.
  intros Hq Hloop. rewrite (chat_loop_continues _ _ _ _ _ Hloop).
  cbn [Chatbot.chat_loop]. rewrite Hq. cbn. by rewrite app_nil_r.
Qed.

(** When the model fails on a line, the loop ends with the exception; the
    earlier exchanges are kept, the line itself is already in the state
    (it was appended before the call), and nothing is printed for it. *)
Theorem chat_loop_model_failure (xs rest : list string) (x : string)
    (state fin : option (list message)) (out : list string) :
  (0 < limit)%nat →
  Chatbot.is_exit x = false →
  chat_loop xs state = (out, fin, Chatbot.EndOfInput) →
  llm (from_option id [] fin ++ [HumanMessage x]) = None →
  chat_loop (xs ++ x :: rest) state
  = (out, Some (from_option id [] fin ++ [HumanMessage x]),
     Chatbot.Raised UpstreamFailure).
Proof.
  intros Hlimit Hx Hloop Hfail. rewrite (chat_loop_continues _ _ _ _ _ Hloop).
  cbn [Chatbot.chat_loop]. rewrite Hx.
  assert ((match fin with
           | Some s => s ++ [HumanMessage x]
           | None => [HumanMessage x]
           end) = from_option id [] fin ++ [HumanMessage x]) as ->
    by by destruct fin.
  assert (Chatbot.graph_invoke llm limit
            (from_option id [] fin ++ [HumanMessage x])
          = Error UpstreamFailure) as ->.
  { unfold Chatbot.graph_invoke, Controller.invoke, Controller.load.
    rewrite lookup_empty. destruct limit as [| n]; [lia |].
    unfold Controller.drive. cbn [Controller.run].
    unfold Chatbot.chatbot. by rewrite Hfail. }
  cbn. by rewrite app_nil_r.
Qed.

(** However the loop ends, the state holds two messages for each printed
    reply (the user's line and the reply), after the messages it started
    with, and one more (the pending line) when the call raised; every
    printed line starts with "Bot: "; no more replies than lines. *)
Theorem chat_loop_shape (inputs : list string) :
  ∀ state out fin why,
    chat_loop inputs state = (out, fin, why) →
    length (from_option id [] fin)
    = (length (from_option id [] state) + 2 * length out
       + match why with Chatbot.Raised _ => 1 | _ => 0 end)%nat
    ∧ from_option id [] state `prefix_of` from_option id [] fin
    ∧ (length out ≤ length inputs)%nat
    ∧ Forall (λ line, ∃ c, line = "Bot: " +:+ c) out.
Proof.
  induction inputs as [| x rest IH]; intros state out fin why Hloop.
  { cbn in Hloop. injection Hloop as <- <- <-. cbn.
    split_and!; [lia | done | lia | constructor]. }
  cbn [Chatbot.chat_loop] in Hloop.
  destruct (Chatbot.is_exit x).
  { injection Hloop as <- <- <-. cbn.
    split_and!; [lia | done | lia | constructor]. }
  set (s := from_option id [] state).
  assert ((match state with
           | Some s0 => s0 ++ [HumanMessage x]
           | None => [HumanMessage x]
           end) = s ++ [HumanMessage x]) as Hst by (subst s; by destruct state).
  rewrite Hst in Hloop.
  destruct (Chatbot.graph_invoke llm limit (s ++ [HumanMessage x]))
    as [st' | payload | e] eqn:Hinv.
  - apply chatbot_graph_invoke in Hinv as (reply & Hreply & ->).
    destruct (Chatbot.chat_loop llm limit rest _) as [[out' fin'] why'] eqn:Hrest.
    injection Hloop as <- <- <-.
    apply IH in Hrest as (Hlen & Hpre & Hout & Hbot).
    cbn [from_option id] in Hlen, Hpre.
    rewrite !length_app in Hlen. cbn [length] in Hlen |- *.
    split_and!.
    + fold s. lia.
    + etrans; [| exact Hpre]. rewrite <- app_assoc. by apply prefix_app_r.
    + lia.
    + constructor; [by eexists | exact Hbot].
  - injection Hloop as <- <- <-. cbn [from_option id length].
    rewrite length_app. cbn [length].
    split_and!; [lia | by apply prefix_app_r | lia | constructor].
  - injection Hloop as <- <- <-. cbn [from_option id length].
    rewrite length_app. cbn [length].
    split_and!; [lia | by apply prefix_app_r | lia | constructor].
Qed.
End ChatLoop.

Lemma chat_loop_app_witness :
  Chatbot.chat_loop Script.llm 25 ["hello"] None
  = (["Bot: You said: hello"],
     Some [HumanMessage "hello"; AIMessage "You said: hello" []],
     Chatbot.EndOfInput)
  ∧ Chatbot.chat_loop Script.llm 25 (["hello"] ++ ["and again"]) None
    = (["Bot: You said: hello"; "Bot: You said: and again"],
       Some [HumanMessage "hello"; AIMessage "You said: hello" [];
             HumanMessage "and again"; AIMessage "You said: and again" []],
       Chatbot.EndOfInput).
Proof.
  assert (Chatbot.chat_loop Script.llm 25 ["hello"] None
          = (["Bot: You said: hello"],
             Some [HumanMessage "hello"; AIMessage "You said: hello" []],
             Chatbot.EndOfInput)) as Hloop by (vm_compute; reflexivity).
  split; [exact Hloop |].
  rewrite (chat_loop_app Script.llm 25%nat ["hello"] ["and again"] None _ _ Hloop).
  vm_compute. reflexivity.
Defined.

Lemma chat_loop_stops_at_exit_witness :
  Chatbot.is_exit "QUIT" = true
  ∧ Chatbot.chat_loop Script.llm 25 (["hello"] ++ "QUIT" :: ["never read"]) None
    = (["Bot: You said: hello"],
       Some [HumanMessage "hello"; AIMessage "You said: hello" []],
       Chatbot.Break).
Proof.
  assert (Chatbot.is_exit "QUIT" = true) as Hq by reflexivity.
  split; [exact Hq |].
  apply (chat_loop_stops_at_exit Script.llm 25%nat ["hello"] ["never read"]
           "QUIT" None _ _ Hq).
  vm_compute. reflexivity.
Defined.

Lemma chat_loop_model_failure_witness :
  Chatbot.chat_loop llm_once 25 (["hello"] ++ "more" :: ["never read"]) None
  = (["Bot: You said: hello"],
     Some ([HumanMessage "hello"; AIMessage "You said: hello" []]
           ++ [HumanMessage "more"]),
     Chatbot.Raised UpstreamFailure).
Proof.
  refine (chat_loop_model_failure llm_once 25%nat ["hello"] ["never read"]
            "more" None
            (Some [HumanMessage "hello"; AIMessage "You said: hello" []])
            ["Bot: You said: hello"] _ _ _ _).
  - lia.
  - reflexivity.
  - vm_compute. reflexivity.
  - reflexivity.
Defined.

Lemma chat_loop_shape_witness :
  Chatbot.chat_loop llm_once 25 ["hello"; "more"; "never read"] None
  = (["Bot: You said: hello"],
     Some [HumanMessage "hello"; AIMessage "You said: hello" [];
           HumanMessage "more"],
     Chatbot.Raised UpstreamFailure)
  ∧ length [HumanMessage "hello"; AIMessage "You said: hello" [];
            HumanMessage "more"]
    = (0 + 2 * 1 + 1)%nat.
Proof.
  assert (Chatbot.chat_loop llm_once 25 ["hello"; "more"; "never read"] None
          = (["Bot: You said: hello"],
             Some [HumanMessage "hello"; AIMessage "You said: hello" [];
                   HumanMessage "more"],
             Chatbot.Raised UpstreamFailure)) as Hloop
    by (vm_compute; reflexivity).
  split; [exact Hloop |].
  exact (proj1 (chat_loop_shape llm_once 25%nat _ _ _ _ _ Hloop)).
Defined.

(** ** Only a resume can buy *)

Lemma filter_no_purchase (msgs : list message) :
  Forall (λ m, is_purchase m = false) msgs →
  List.filter is_purchase msgs = [].
Proof.
  induction 1 as [| m msgs Hm _ IH]; [done |].
  cbn [List.filter]. by rewrite Hm.
Qed.

Lemma run_no_purchase llm limit :
  (∀ st m, llm st = Some m → is_purchase m = false) →
  ∀ tid sid st (σ σ' : gmap string (Controller.Checkpoint Hitl.node)) r cp,
    Controller.run (Hitl.run_node llm) Hitl.next_node limit tid sid st [] σ
    = (σ', r) →
    σ !! tid = Some cp →
    List.filter is_purchase (Controller.state cp) = List.filter is_purchase st →
    (∃ cp', σ' !! tid = Some cp'
            ∧ List.filter is_purchase (Controller.state cp')
              = List.filter is_purchase st)
    ∧ ∀ final, r = Completed final →
               List.filter is_purchase final = List.filter is_purchase st.
Proof.
  intros Hllm.
  induction limit as [| n IH]; intros tid sid st σ σ' r cp Hrun Hcp Hsame.
  { cbn in Hrun. injection Hrun as <- <-. split; [by exists cp | done]. }
  cbn [Controller.run] in Hrun.
  destruct (replay (Hitl.run_node llm sid st) []) as [d | payload | e] eqn:Hex.
  - assert (List.filter is_purchase (st ++ d) = List.filter is_purchase st)
      as Hd.
    { rewrite List.filter_app.
      assert (List.filter is_purchase d = []) as ->; [| by rewrite app_nil_r].
      destruct sid; cbn [Hitl.run_node] in Hex.
      - unfold Hitl.chatbot_node in Hex.
        destruct (llm st) as [m |] eqn:Hm; [| discriminate Hex].
        injection Hex as <-. cbn [List.filter]. by rewrite (Hllm _ _ Hm).
      - apply filter_no_purchase.
        by apply (tool_node_first_run st d). }
    destruct (Hitl.next_node sid (st ++ d)) as [sid' |].
    + destruct (IH _ _ _ _ _ _ _ Hrun (lookup_insert_eq _ _ _) eq_refl)
        as [(cp' & Hcp' & Hsame') Hfinal].
      split; [exists cp'; by rewrite Hsame', Hd |].
      intros final ->. by rewrite (Hfinal _ eq_refl), Hd.
    + injection Hrun as <- <-. split.
      * eexists. split; [apply lookup_insert_eq | exact Hd].
      * intros final Heq. by injection Heq as <-.
  - injection Hrun as <- <-. split; [| done].
    eexists. split; [apply lookup_insert_eq | done].
  - injection Hrun as <- <-. split; [| done].
    eexists. split; [apply lookup_insert_eq | done].
Qed.

(** [graph.invoke] with a new user message never buys: whatever the
    model asks for (as long as it is the model that speaks, not a forged
    tool result), the results of [buy_stocks] calls that ran to their end
    (purchases and refusals; the error message of a failed call is not
    one) in the thread's state after the call, and in the final state of a
    completed call, are those of the state before it and of the input.
    Such a message can only enter the state through a resume that carries
    the user's decision. *)
Theorem invoke_never_purchases
    (llm : list message → option message) (limit : nat) (tid : string)
    (new_input : list message)
    (σ σ' : gmap string (Controller.Checkpoint Hitl.node)) (r : Outcome) :
  (∀ st m, llm st = Some m → is_purchase m = false) →
  HitlRun.graph_invoke llm limit tid new_input σ = (σ', r) →
  let before :=
    from_option Controller.state [] (Controller.load tid σ) ++ new_input in
  (∃ cp', Controller.load tid σ' = Some cp'
          ∧ List.filter is_purchase (Controller.state cp')
            = List.filter is_purchase before)
  ∧ ∀ final, r = Completed final →
             List.filter is_purchase final = List.filter is_purchase before.
Proof.
  intros Hllm Hrun before. subst before.
  unfold HitlRun.graph_invoke, Controller.invoke, Controller.drive in Hrun.
  unfold Controller.load in *.
  destruct (σ !! tid) as [cp |]; cbn [from_option];
    exact (run_no_purchase llm limit Hllm _ _ _ _ _ _ _ Hrun
             (lookup_insert_eq _ _ _) eq_refl).
Qed.

Lemma script_llm_never_purchases (st : list message) (m : message) :
  Script.llm st = Some m → is_purchase m = false.
Proof.
  unfold Script.llm.
  destruct (last st) as [[c | c calls | c name id | c name id] |];
    [| done | | done | done].
  - destruct (String.eqb c _); [by intros [= <-] |].
    destruct (String.eqb c _); by intros [= <-].
  - destruct (String.eqb name _); [by intros [= <-] |].
    destruct (String.eqb c _); by intros [= <-].
Qed.

Lemma invoke_never_purchases_witness :
  ∃ σ' r,
    HitlRun.graph_invoke Script.llm 25 "buy_thread" HitlRun.ask_buy ∅ = (σ', r)
    ∧ ∃ cp', Controller.load "buy_thread" σ' = Some cp'
             ∧ List.filter is_purchase (Controller.state cp') = [].
Proof.
  destruct (HitlRun.graph_invoke Script.llm 25 "buy_thread" HitlRun.ask_buy ∅)
    as [σ' r] eqn:Hrun.
  exists σ', r. split; [reflexivity |].
  destruct (invoke_never_purchases Script.llm 25%nat "buy_thread"
              HitlRun.ask_buy ∅ σ' r script_llm_never_purchases Hrun)
    as [(cp' & Hcp' & Hsame) _].
  exists cp'. split; [exact Hcp' | exact Hsame].
Defined.

